(** * Embedding verification script of locai-cli

    A shallow embedding of [scripts/verify_embeddings.py]: the validator
    [validate_embedding], the norm [calculate_norm] and the mock generator
    [generate_mock_embedding], over IEEE-754 binary64 numbers as specified by
    the Standard Library's [SpecFloat] (53 bits of precision, [emax = 1024],
    round to nearest even).  Python exceptions are values of an error monad. *)

From Stdlib Require Import ZArith Bool String Ascii List Lia.
From Stdlib Require Import Floats.SpecFloat.
From Stdlib Require Import Decimal DecimalString DecimalNat.
Import ListNotations.

Local Open Scope Z_scope.

(** ** Binary64 numbers: the Python [float] *)

Module F64.

Definition prec : Z := 53.
Definition emax : Z := 1024.
Definition emin : Z := SpecFloat.emin prec emax.
Definition fexp (e : Z) : Z := SpecFloat.fexp prec emax e.

(** The values of [spec_float] whose mantissa and exponent are canonical
    ([valid_binary]) are the binary64 numbers; the statements below hold of
    every value of the type. *)
Definition float : Type := spec_float.

Definition add : float -> float -> float := SFadd prec emax.
Definition mul : float -> float -> float := SFmul prec emax.
Definition div : float -> float -> float := SFdiv prec emax.
Definition sqrt : float -> float := SFsqrt prec emax.
Definition abs : float -> float := SFabs.
Definition ltb : float -> float -> bool := SFltb.
Definition leb : float -> float -> bool := SFleb.
Definition eqb : float -> float -> bool := SFeqb.

(** Conversion of an integer, correctly rounded. *)
Definition of_int (z : Z) : float := binary_normalize prec emax z 0 false.

Definition is_nan (x : float) : bool :=
  match x with S754_nan => true | _ => false end.

Definition is_inf (x : float) : bool :=
  match x with S754_infinity _ => true | _ => false end.

Definition is_zero (x : float) : bool :=
  match x with S754_zero _ => true | _ => false end.

(** The literals of the script, as the binary64 numbers nearest to them. *)
Definition zero : float := S754_zero false.
Definition f0_1 : float := S754_finite false 7205759403792794 (-56).
Definition f0_9 : float := S754_finite false 8106479329266893 (-53).
Definition f1_1 : float := S754_finite false 4953959590107546 (-52).
Definition f1em6 : float := S754_finite false 4722366482869645 (-72).
Definition f255 : float := S754_finite false 8972014882652160 (-45).
Definition f1000 : float := S754_finite false 8796093022208000 (-43).
Definition f10 : float := S754_finite false 5629499534213120 (-49).
Definition fm10 : float := S754_finite true 5629499534213120 (-49).

(** Numbers used in the examples: 0.5, 1.5 and 15.0. *)
Definition f0_5 : float := S754_finite false 4503599627370496 (-53).
Definition f1_5 : float := S754_finite false 6755399441055744 (-52).
Definition f15 : float := S754_finite false 8444249301319680 (-49).

Definition eq_dec (x y : float) : {x = y} + {x <> y}.
Proof.
  decide equality; try apply Z.eq_dec; try apply Pos.eq_dec; apply bool_dec.
Defined.

(** *** Shapes of rounded results

    The magnitude of a finite number is its number of binary digits plus its
    exponent. *)

(** A result with sign [s]: never a NaN, and a finite result has an exponent
    of at least [emin]. *)
Definition wf_sign (s : bool) (x : float) : Prop :=
  match x with
  | S754_zero s' => s' = s
  | S754_infinity s' => s' = s
  | S754_nan => False
  | S754_finite s' _ e => s' = s /\ emin <= e
  end.

(** A nonzero result with sign [s] whose magnitude is at least [k]. *)
Definition big_sign (s : bool) (k : Z) (x : float) : Prop :=
  match x with
  | S754_infinity s' => s' = s
  | S754_finite s' m e => s' = s /\ emin <= e /\ k <= Zdigits2 (Zpos m) + e
  | _ => False
  end.

(** Non-negative, not a NaN, exponent in range. *)
Definition nonneg (x : float) : Prop :=
  match x with
  | S754_zero _ => True
  | S754_infinity s => s = false
  | S754_nan => False
  | S754_finite s _ e => s = false /\ emin <= e
  end.

(** Sign only: non-negative or a NaN, whatever the exponent. *)
Definition nonneg_or_nan (x : float) : Prop :=
  match x with
  | S754_zero _ | S754_nan => True
  | S754_infinity s | S754_finite s _ _ => s = false
  end.

(** Boolean versions, to decide the shape of the finitely many terms the
    generator adds. *)
Definition nonnegb (x : float) : bool :=
  match x with
  | S754_zero _ => true
  | S754_infinity s => negb s
  | S754_nan => false
  | S754_finite s _ e => negb s && (emin <=? e)
  end.

Definition bigb (k : Z) (x : float) : bool :=
  match x with
  | S754_infinity s => negb s
  | S754_finite s m e =>
      negb s && (emin <=? e) && (k <=? Zdigits2 (Zpos m) + e)
  | _ => false
  end.

(** A finite number that is not negative, with at most 53 digits and an
    exponent of at most [k]: a number of at most [(2^53 - 1) * 2^k]. *)
Definition below (k : Z) (x : float) : Prop :=
  match x with
  | S754_zero _ => True
  | S754_finite s m e => s = false /\ Zdigits2 (Zpos m) <= prec /\ e <= k
  | _ => False
  end.

Definition belowb (k : Z) (x : float) : bool :=
  match x with
  | S754_zero _ => true
  | S754_finite s m e => negb s && (Zdigits2 (Zpos m) <=? prec) && (e <=? k)
  | _ => false
  end.

(** The position of a number that is not a NaN in the total order of the
    comparison: class, then exponent, then mantissa (negated when the sign
    is negative). *)
Definition key (x : float) : Z * Z * Z :=
  match x with
  | S754_infinity true => (-2, 0, 0)
  | S754_finite true m e => (-1, - e, - Zpos m)
  | S754_zero _ | S754_nan => (0, 0, 0)
  | S754_finite false m e => (1, e, Zpos m)
  | S754_infinity false => (2, 0, 0)
  end.

Definition key_lt (a b : Z * Z * Z) : Prop :=
  let '(a1, a2, a3) := a in
  let '(b1, b2, b3) := b in
  a1 < b1 \/ (a1 = b1 /\ (a2 < b2 \/ (a2 = b2 /\ a3 < b3))).

End F64.

Import F64.

(** ** Python values and exceptions *)

Inductive exn : Type :=
| ValueError
| ZeroDivisionError
| IndexError
| OverflowError.

Inductive result (A : Type) : Type :=
| Ok (a : A)
| Raise (e : exn).

Arguments Ok {A} a.
Arguments Raise {A} e.

Definition bind {A B : Type} (r : result A) (k : A -> result B) : result B :=
  match r with
  | Ok a => k a
  | Raise e => Raise e
  end.

Notation "x <- c ;; k" := (bind c (fun x => k))
  (at level 61, c at next level, right associativity).

(** A [for] loop whose body may raise. *)
Fixpoint foldM {A S : Type} (body : S -> A -> result S) (xs : list A) (s : S)
  : result S :=
  match xs with
  | [] => Ok s
  | x :: xs' => s' <- body s x ;; foldM body xs' s'
  end.

(** A list comprehension whose element expression may raise. *)
Fixpoint mapM {A B : Type} (f : A -> result B) (xs : list A)
  : result (list B) :=
  match xs with
  | [] => Ok []
  | x :: xs' => y <- f x ;; ys <- mapM f xs' ;; Ok (y :: ys)
  end.

(** A Python [str] is its sequence of code points; [ord] is the identity. *)
Definition pystr : Type := list Z.

Definition str_of (s : string) : pystr :=
  map (fun a => Z.of_N (N_of_ascii a)) (list_ascii_of_string s).

(** [enumerate(xs)], from the index [start]. *)
Definition enumerate_from {A : Type} (start : nat) (xs : list A)
  : list (nat * A) :=
  combine (seq start (length xs)) xs.

Definition enumerate {A : Type} (xs : list A) : list (nat * A) :=
  enumerate_from 0 xs.

(** [range(n)] *)
Definition range (n : Z) : list Z :=
  map Z.of_nat (seq 0 (Z.to_nat n)).

(** [a % b] on integers: floored, with the sign of the divisor. *)
Definition py_mod (a b : Z) : result Z :=
  if b =? 0 then Raise ZeroDivisionError else Ok (a mod b).

(** [float(z)], as done implicitly by [z / 255.0]. *)
Definition float_of_int (z : Z) : result float :=
  let r := of_int z in
  if is_inf r then Raise OverflowError else Ok r.

(** [x / y] on floats. *)
Definition truediv (x y : float) : result float :=
  if is_zero y then Raise ZeroDivisionError else Ok (div x y).

(** [z / y] with an integer numerator. *)
Definition int_truediv (z : Z) (y : float) : result float :=
  x <- float_of_int z ;; truediv x y.

(** [xs[i]], with Python's negative indices. *)
Definition norm_index {A : Type} (xs : list A) (i : Z) : result nat :=
  let n := Z.of_nat (length xs) in
  let j := if i <? 0 then i + n else i in
  if (0 <=? j) && (j <? n) then Ok (Z.to_nat j) else Raise IndexError.

Definition getitem (xs : list float) (i : Z) : result float :=
  j <- norm_index xs i ;;
  match nth_error xs j with
  | Some x => Ok x
  | None => Raise IndexError
  end.

Fixpoint list_set {A : Type} (xs : list A) (j : nat) (x : A) : list A :=
  match xs, j with
  | [], _ => []
  | _ :: xs', O => x :: xs'
  | y :: xs', S j' => y :: list_set xs' j' x
  end.

(** [xs[i] = x] *)
Definition setitem (xs : list float) (i : Z) (x : float)
  : result (list float) :=
  j <- norm_index xs i ;; Ok (list_set xs j x).

(** [math.sqrt]: a [ValueError] on a negative argument. *)
Definition math_sqrt (x : float) : result float :=
  if ltb x zero then Raise ValueError else Ok (sqrt x).

(** [sum(...)] of floats: the accumulator starts at the integer [0] and the
    elements are added to it from left to right, each addition rounded.
    (CPython from 3.12 on also carries a compensation term for the rounding
    errors of the partial sums; the model is the plain left-to-right sum.) *)
Definition py_sum (xs : list float) : float :=
  fold_left add xs (of_int 0).

(** [min(xs)] and [max(xs)]: the first element, replaced by each later one
    that compares strictly below (above) it; [ValueError] on an empty list. *)
Definition min_step (m y : float) : float := if ltb y m then y else m.
Definition max_step (m y : float) : float := if ltb m y then y else m.

Definition py_min (xs : list float) : result float :=
  match xs with
  | [] => Raise ValueError
  | x :: xs' => Ok (fold_left min_step xs' x)
  end.

Definition py_max (xs : list float) : result float :=
  match xs with
  | [] => Raise ValueError
  | x :: xs' => Ok (fold_left max_step xs' x)
  end.

(** [str(n)] of a non-negative integer. *)
Definition str_of_nat (n : nat) : string :=
  NilEmpty.string_of_uint (Nat.to_uint n).

(** [emb1 == emb2] on lists of floats: same length and pairwise [==]. *)
Fixpoint py_list_eq (xs ys : list float) : bool :=
  match xs, ys with
  | [], [] => true
  | x :: xs', y :: ys' => eqb x y && py_list_eq xs' ys'
  | _, _ => false
  end.

(** ** The script *)

(** [calculate_norm] *)
Definition calculate_norm (embedding : list float) : result float :=
  math_sqrt (py_sum (map (fun x => mul x x) embedding)).

Section Validator.

(** [format(x, '.6')], the six significant digits of the f-strings. *)
Variable fmt6 : float -> string.

Definition dimension_issue (n : nat) : string :=
  ("Expected 1024 dimensions, got " ++ str_of_nat n)%string.

Definition nan_issue (i : nat) : string :=
  ("NaN value at index " ++ str_of_nat i)%string.

Definition inf_issue (i : nat) : string :=
  ("Infinite value at index " ++ str_of_nat i)%string.

Definition norm_issue (norm : float) : string :=
  ("Norm is " ++ fmt6 norm ++ ", expected ~1.0 (normalized)")%string.

Definition range_issue (min_val max_val : float) : string :=
  ("Values out of reasonable range: [" ++ fmt6 min_val ++ ", "
     ++ fmt6 max_val ++ "]")%string.

Definition zero_issue : string :=
  "All values are zero (or very close to zero)"%string.

(** The body of the loop over [enumerate(embedding)]. *)
Definition finiteness_step (issues : list string) (iv : nat * float)
  : list string :=
  let '(i, val) := iv in
  let issues := if is_nan val then issues ++ [nan_issue i] else issues in
  if is_inf val then issues ++ [inf_issue i] else issues.

(** [validate_embedding] *)
Definition validate_embedding (embedding : list float) (text : pystr)
  : result (bool * list string) :=
  let issues := [] in
  let issues :=
    if negb (length embedding =? 1024)%nat
    then issues ++ [dimension_issue (length embedding)] else issues in
  let issues := fold_left finiteness_step (enumerate embedding) issues in
  norm <- calculate_norm embedding ;;
  let issues :=
    if ltb norm f0_9 || ltb f1_1 norm
    then issues ++ [norm_issue norm] else issues in
  min_val <- py_min embedding ;;
  max_val <- py_max embedding ;;
  let issues :=
    if ltb min_val fm10 || ltb f10 max_val
    then issues ++ [range_issue min_val max_val] else issues in
  let all_zero := forallb (fun x => ltb (abs x) f1em6) embedding in
  let issues := if all_zero then issues ++ [zero_issue] else issues in
  Ok ((length issues =? 0)%nat, issues).

End Validator.

(** The two loop bodies of [generate_mock_embedding].  In [xs[i] += e] the
    element is read before [e] is evaluated. *)
Definition char_step (dimensions : Z) (embedding : list float) (ic : nat * Z)
  : result (list float) :=
  let '(i, c) := ic in
  idx <- py_mod (Z.of_nat i) dimensions ;;
  char_val <- py_mod c 255 ;;
  old <- getitem embedding idx ;;
  q <- int_truediv char_val f255 ;;
  setitem embedding idx (add old (mul q f0_1)).

Definition hash_step (text_hash : Z) (embedding : list float) (i : Z)
  : result (list float) :=
  old <- getitem embedding i ;;
  r <- py_mod (i + text_hash) 100 ;;
  q <- int_truediv r f1000 ;;
  setitem embedding i (add old q).

(** [generate_mock_embedding], for a [dimensions] that fits an index of a
    list: [[0.0] * dimensions] is then the list of that many zeros, empty
    for a count of zero or less. *)
Definition generate_mock_embedding (text : pystr) (dimensions : Z)
  : result (list float) :=
  let embedding := repeat zero (Z.to_nat dimensions) in
  embedding <- foldM (char_step dimensions) (enumerate text) embedding ;;
  let text_hash := fold_left Z.add text 0 in
  embedding <- foldM (hash_step text_hash) (range dimensions) embedding ;;
  norm <- calculate_norm embedding ;;
  if ltb zero norm
  then mapM (fun x => truediv x norm) embedding
  else Ok embedding.

(** The vector [generate_mock_embedding] holds before it normalizes: the
    function up to its computation of the norm. *)
Definition mock_unnormalized (text : pystr) (dimensions : Z)
  : result (list float) :=
  let embedding := repeat zero (Z.to_nat dimensions) in
  embedding <- foldM (char_step dimensions) (enumerate text) embedding ;;
  let text_hash := fold_left Z.add text 0 in
  foldM (hash_step text_hash) (range dimensions) embedding.

(** ** The checks of [verify_mock_embeddings] *)

(** The check [verify_mock_embeddings] makes of each sample text: generate
    with 1024 dimensions, then validate. *)
Definition mock_check (fmt6 : float -> string) (text : pystr)
  : result (bool * list string) :=
  embedding <- generate_mock_embedding text 1024 ;;
  validate_embedding fmt6 embedding text.

Definition test_texts : list pystr :=
  map str_of
      ["The protagonist is a skilled warrior named John";
       "John met Alice in the tavern last week";
       "The kingdom has been at war for three years";
       "warrior";
       "character"]%string.

(** The determinism test of [verify_mock_embeddings]: two calls on the same
    arguments, compared with [==]. *)
Definition determinism_test (text : pystr) (dimensions : Z) : result bool :=
  emb1 <- generate_mock_embedding text dimensions ;;
  emb2 <- generate_mock_embedding text dimensions ;;
  Ok (py_list_eq emb1 emb2).

(** ** The generator as the specification words it

    A vector of zeros; each character at position [i] adds
    [(codepoint mod 255) / 255.0 * 0.1] at index [i mod dimensions]; every
    index [j] then receives [((j + sum of code points) mod 100) / 1000.0];
    the vector is divided by its L2 norm when that norm is positive. *)

Definition char_term (c : Z) : float :=
  mul (div (of_int (c mod 255)) f255) f0_1.

Definition hash_term (text_hash j : Z) : float :=
  div (of_int ((j + text_hash) mod 100)) f1000.

(** Add [t] to the element at index [k], leave the others. *)
Definition add_at_from (start k : nat) (t : float) (v : list float)
  : list float :=
  map (fun jy => if (fst jy =? k)%nat then add (snd jy) t else snd jy)
      (enumerate_from start v).

Definition add_at (k : nat) (t : float) (v : list float) : list float :=
  add_at_from 0 k t v.

Definition spec_accumulate (text : pystr) (dimensions : Z) : list float :=
  fold_left
    (fun v ic =>
       add_at (Z.to_nat (Z.of_nat (fst ic) mod dimensions))
              (char_term (snd ic)) v)
    (enumerate text) (repeat zero (Z.to_nat dimensions)).

Definition codepoint_sum (text : pystr) : Z := fold_right Z.add 0 text.

Definition spec_hashed_from (start : nat) (text_hash : Z) (v : list float)
  : list float :=
  map (fun jy => add (snd jy) (hash_term text_hash (Z.of_nat (fst jy))))
      (enumerate_from start v).

(** The vector before normalization. *)
Definition spec_unnormalized (text : pystr) (dimensions : Z) : list float :=
  spec_hashed_from 0 (codepoint_sum text) (spec_accumulate text dimensions).

Definition l2_norm (v : list float) : float :=
  sqrt (fold_left add (map (fun x => mul x x) v) zero).

Definition spec_normalize (v : list float) : list float :=
  let norm := l2_norm v in
  if ltb zero norm then map (fun x => div x norm) v else v.

Definition generateMock_spec (text : pystr) (dimensions : Z) : list float :=
  spec_normalize (spec_unnormalized text dimensions).

(** The same vector index by index: the character terms that land on index
    [j], added in the order of the text, then the hash term of [j]. *)
Definition terms_at (dimensions : Z) (j : nat) (ics : list (nat * Z))
  : list float :=
  map (fun ic => char_term (snd ic))
      (filter (fun ic =>
                 (Z.to_nat (Z.of_nat (fst ic) mod dimensions) =? j)%nat)
              ics).

Definition spec_element (text : pystr) (dimensions : Z) (j : nat) : float :=
  add (fold_left add (terms_at dimensions j (enumerate text)) zero)
      (hash_term (codepoint_sum text) (Z.of_nat j)).

(** ** Vocabulary of the statements *)

(** Some element of the vector is a NaN or an infinity. *)
Definition has_nan (v : list float) : Prop :=
  exists x, In x v /\ is_nan x = true.

Definition has_inf (v : list float) : Prop :=
  exists x, In x v /\ is_inf x = true.

(** [m] is a minimum (maximum) element of [v] for the comparison of floats. *)
Definition is_minimum (m : float) (v : list float) : Prop :=
  In m v /\ forall x, In x v -> leb m x = true.

Definition is_maximum (m : float) (v : list float) : Prop :=
  In m v /\ forall x, In x v -> leb x m = true.

(** A finite number: neither a NaN nor an infinity. *)
Definition is_finite (x : float) : bool := negb (is_nan x) && negb (is_inf x).

(** The element lies in [[-10.0, 10.0]]. *)
Definition in_range (x : float) : bool := leb fm10 x && leb x f10.

(** The element is below [1e-6] in absolute value. *)
Definition near_zero (x : float) : bool := ltb (abs x) f1em6.

(** The issues of one pass of the finiteness loop. *)
Definition finiteness_issues_at (iv : nat * float) : list string :=
  (if is_nan (snd iv) then [nan_issue (fst iv)] else [])
  ++ (if is_inf (snd iv) then [inf_issue (fst iv)] else []).

(** The issues each of the five checks contributes. *)
Definition dimension_issues (v : list float) : list string :=
  if negb (length v =? 1024)%nat then [dimension_issue (length v)] else [].

Definition finiteness_issues (v : list float) : list string :=
  flat_map finiteness_issues_at (enumerate v).

Definition norm_issues (fmt6 : float -> string) (norm : float) : list string :=
  if ltb norm f0_9 || ltb f1_1 norm then [norm_issue fmt6 norm] else [].

Definition range_issues (fmt6 : float -> string) (lo hi : float)
  : list string :=
  if ltb lo fm10 || ltb f10 hi then [range_issue fmt6 lo hi] else [].

Definition zero_issues (v : list float) : list string :=
  if forallb near_zero v then [zero_issue] else [].

(** The issue list of a non-empty vector whose [min] and [max] are [lo] and
    [hi], in the order of the checks. *)
Definition issues_of (fmt6 : float -> string) (v : list float)
           (lo hi : float) : list string :=
  dimension_issues v ++ finiteness_issues v ++ norm_issues fmt6 (l2_norm v)
    ++ range_issues fmt6 lo hi ++ zero_issues v.

(** The first two characters of an issue tell the check it comes from. *)
Definition prefix2 (s : string) : option (ascii * ascii) :=
  match s with
  | String a (String b _) => Some (a, b)
  | _ => None
  end.

(** A formatter for the closed examples: the statements hold for every
    formatter, the examples need one. *)
Definition fmt_hex (x : float) : string :=
  match x with
  | S754_zero false => "0.0"
  | S754_zero true => "-0.0"
  | S754_infinity false => "inf"
  | S754_infinity true => "-inf"
  | S754_nan => "nan"
  | S754_finite s m e =>
      ((if s then "-" else "") ++ NilEmpty.string_of_uint (Pos.to_uint m)
         ++ "p" ++ NilZero.string_of_int (Z.to_int e))%string
  end.

(** One issue for the element at index [i] when the test [p] holds of it,
    none otherwise. *)
Definition one_if (p : float -> bool) (v : list float) (i : nat) : nat :=
  match nth_error v i with
  | Some x => if p x then 1%nat else 0%nat
  | None => 0%nat
  end.

(** ** Further vocabulary *)


(** A number that is not negative: a zero, a positive finite number or
    the positive infinity. *)
Definition not_negative (x : float) : Prop :=
  match x with
  | S754_zero _ => True
  | S754_infinity s | S754_finite s _ _ => s = false
  | S754_nan => False
  end.

(** The element lies outside [[-10.0, 10.0]] on one side or the other. *)
Definition out_of_range (x : float) : bool := ltb x fm10 || ltb f10 x.

(** ** The driver [verify_quickstart_embeddings], from [json.load] on

    The entries are taken as [json.load] returns them for a document of the
    expected shape: an array of objects whose ["text"], when present and
    not null, is a string and whose ["embedding"], when present and not
    null, is an array of numbers (integers of any size, or floats, NaN and
    the infinities included).  What the function prints is kept as one
    value for each [print], holding the values the f-string formats.

    The output is taken to encode as UTF-8, which the fixed texts of the
    script (check marks, warning signs) need.  A [print] then fails on one
    kind of string only, a string with a surrogate code point, which
    [json.load] returns for a lone [\ud800] escape: it raises
    [UnicodeEncodeError] and writes nothing. *)

Inductive number : Type :=
| NInt (z : Z)
| NFloat (f : float).

Record entry : Type := {
  text_field : option pystr;
  embedding_field : option (list number)
}.

(** [item.get("text", "")] and [item.get("embedding", [])]; a null value is
    as false as the default. *)
Definition get_text (item : entry) : pystr :=
  match text_field item with Some t => t | None => [] end.

Definition get_embedding (item : entry) : list number :=
  match embedding_field item with Some l => l | None => [] end.

(** [float(x)] *)
Definition to_float (x : number) : result float :=
  match x with
  | NInt z => float_of_int z
  | NFloat f => Ok f
  end.

(** What [except Exception] can catch after [json.load]: an exception of
    the functions above, or the [UnicodeEncodeError] of a [print]. *)
Inductive caught : Type :=
| Raised (e : exn)
| UnicodeEncodeError.

Inductive line : Type :=
| LoadedLine
| FoundLine (entries : nat)
| MissingLine (entry_no : nat)
| EmptyLine (entry_no : nat) (text : pystr)
| ValidLine (entry_no : nat) (text50 : pystr)
| StatsLine (dimensions : nat) (norm min_val max_val : float)
| InvalidLine (entry_no : nat) (text50 : pystr)
| IssueLine (issue : string)
| SummaryLine (valid invalid : nat)
| ErrorLine (e : caught).

(** The code points U+D800 to U+DFFF, which UTF-8 does not encode. *)
Definition is_surrogate (c : Z) : bool := (55296 <=? c) && (c <=? 57343).

Definition encodable (s : pystr) : bool :=
  forallb (fun c => negb (is_surrogate c)) s.

(** Only the lines that show a text of the data can hold a surrogate: the
    other values printed are numbers, issue strings and error messages. *)
Definition line_encodable (l : line) : bool :=
  match l with
  | EmptyLine _ text => encodable text
  | ValidLine _ text50 | InvalidLine _ text50 => encodable text50
  | _ => true
  end.

(** The two counters and the lines printed so far. *)
Record report : Type := {
  valid_count : nat;
  invalid_count : nat;
  printed : list line
}.

(** The state after a statement, and the exception it raised, if any. *)
Definition outcome : Type := (report * option caught)%type.

Definition and_then (o : outcome) (k : report -> outcome) : outcome :=
  match o with
  | (r, None) => k r
  | (r, Some e) => (r, Some e)
  end.

Definition print (l : line) (r : report) : outcome :=
  if line_encodable l then
    ({| valid_count := valid_count r;
        invalid_count := invalid_count r;
        printed := printed r ++ [l] |}, None)
  else (r, Some UnicodeEncodeError).

Definition count_valid (r : report) : report :=
  {| valid_count := valid_count r + 1;
     invalid_count := invalid_count r;
     printed := printed r |}.

Definition count_invalid (r : report) : report :=
  {| valid_count := valid_count r;
     invalid_count := invalid_count r + 1;
     printed := printed r |}.

(** [for issue in issues: print(...)] *)
Fixpoint print_issues (issues : list string) (r : report) : outcome :=
  match issues with
  | [] => (r, None)
  | issue :: rest =>
      and_then (print (IssueLine issue) r) (print_issues rest)
  end.

(** One pass of the loop over [enumerate(data)]. *)
Definition entry_pass (fmt6 : float -> string) (r : report)
           (ie : nat * entry) : outcome :=
  let '(idx, item) := ie in
  let text := get_text item in
  let embedding_raw := get_embedding item in
  if (length text =? 0)%nat || (length embedding_raw =? 0)%nat then
    and_then (print (MissingLine (idx + 1)) r)
             (fun r => (count_invalid r, None))
  else
    match mapM to_float embedding_raw with
    | Raise e => (r, Some (Raised e))
    | Ok embedding =>
        if (length embedding =? 0)%nat then
          and_then (print (EmptyLine (idx + 1) text) r)
                   (fun r => (count_invalid r, None))
        else
          match validate_embedding fmt6 embedding text with
          | Raise e => (r, Some (Raised e))
          | Ok (is_valid, issues) =>
              if is_valid then
                let r := count_valid r in
                match calculate_norm embedding with
                | Raise e => (r, Some (Raised e))
                | Ok norm =>
                    match py_min embedding with
                    | Raise e => (r, Some (Raised e))
                    | Ok min_val =>
                        match py_max embedding with
                        | Raise e => (r, Some (Raised e))
                        | Ok max_val =>
                            and_then
                              (print (ValidLine (idx + 1) (firstn 50 text))
                                     r)
                              (print (StatsLine (length embedding) norm
                                                min_val max_val))
                        end
                    end
                end
              else
                let r := count_invalid r in
                and_then
                  (print (InvalidLine (idx + 1) (firstn 50 text)) r)
                  (print_issues issues)
          end
    end.

(** The loop: it stops at the first exception. *)
Fixpoint entry_loop (fmt6 : float -> string) (r : report)
         (items : list (nat * entry)) : outcome :=
  match items with
  | [] => (r, None)
  | ie :: rest =>
      and_then (entry_pass fmt6 r ie) (fun r => entry_loop fmt6 r rest)
  end.

(** The body of the [try] after [json.load], with its [except Exception]:
    all that is printed for the loaded [data]. *)
Definition verify_entries (fmt6 : float -> string) (data : list entry)
  : list line :=
  let r := {| valid_count := 0; invalid_count := 0; printed := [] |} in
  let o :=
    and_then (print LoadedLine r) (fun r =>
    and_then (print (FoundLine (length data)) r) (fun r =>
    and_then (entry_loop fmt6 r (enumerate data)) (fun r =>
    print (SummaryLine (valid_count r) (invalid_count r)) r))) in
  match o with
  | (r, None) => printed r
  | (r, Some e) => printed (fst (print (ErrorLine e) r))
  end.

(** An entry the loop counts as valid: a text, an embedding, and the verdict
    [True] of the validator on the converted numbers. *)
Definition entry_accepted (fmt6 : float -> string) (item : entry) : bool :=
  negb (length (get_text item) =? 0)%nat
  && match mapM to_float (get_embedding item) with
     | Ok embedding =>
         match validate_embedding fmt6 embedding (get_text item) with
         | Ok (true, _) => true
         | _ => false
         end
     | Raise _ => false
     end.

(** The entry is skipped as incomplete, or no integer of it is too large
    for a float. *)
Definition entry_converts (item : entry) : bool :=
  (length (get_text item) =? 0)%nat
  || match mapM to_float (get_embedding item) with
     | Ok _ => true
     | Raise _ => false
     end.

(** The entry is skipped as incomplete, or the first 50 characters of its
    text hold no surrogate. *)
Definition entry_prints (item : entry) : bool :=
  (length (get_text item) =? 0)%nat
  || (length (get_embedding item) =? 0)%nat
  || encodable (firstn 50 (get_text item)).

Definition entry_passes (item : entry) : bool :=
  entry_converts item && entry_prints item.

(** The exception of an entry that does not pass: the conversion to floats
    comes before the [print] of the text. *)
Definition entry_error (item : entry) : caught :=
  if entry_converts item then UnicodeEncodeError else Raised OverflowError.

(** The lines one pass of the loop can print. *)
Definition pass_line (l : line) : Prop :=
  match l with
  | MissingLine _ | ValidLine _ _ | StatsLine _ _ _ _
  | InvalidLine _ _ | IssueLine _ => True
  | _ => False
  end.

(** What a statistics line shows lies within the validator's bounds. *)
Definition stats_ok (l : line) : Prop :=
  match l with
  | StatsLine dimensions norm min_val max_val =>
      dimensions = 1024%nat
      /\ leb f0_9 norm = true /\ leb norm f1_1 = true
      /\ leb fm10 min_val = true /\ leb min_val max_val = true
      /\ leb max_val f10 = true
  | _ => True
  end.

(** Sample entries: a unit vector of 1024 dimensions, a short embedding,
    an embedding with an integer beyond the range of a float, and a text
    with a lone surrogate. *)
Definition entry_of (text : string) (embedding : list number) : entry :=
  {| text_field := Some (str_of text); embedding_field := Some embedding |}.

Definition unit_entry : entry :=
  entry_of "unit" (NInt 1 :: repeat (NInt 0) 1023).

Definition short_entry : entry := entry_of "short" [NInt 1; NFloat f0_5].

Definition huge_entry : entry :=
  entry_of "huge" [NFloat f0_5; NInt (2 ^ 1024)].

Definition surrogate_entry : entry :=
  {| text_field := Some [97; 55296]; embedding_field := Some [NInt 1] |}.

(** ** Facts on binary64 arithmetic *)

Module F64Facts.

(** *** The number of binary digits *)

Lemma digits2_pos_size p : digits2_pos p = Pos.size p.
Proof. induction p; simpl; congruence. Qed.

Lemma Zdigits2_log2 m : 0 < m -> Zdigits2 m = Z.log2 m + 1.
Proof.
  destruct m as [|p|p]; try lia. intros _. simpl.
  rewrite digits2_pos_size. destruct p; simpl; lia.
Qed.

Lemma Zdigits2_pos m : 0 < m -> 0 < Zdigits2 m.
Proof.
  intros H. rewrite Zdigits2_log2 by lia.
  pose proof (Z.log2_nonneg m). lia.
Qed.

Lemma Zdigits2_le a b : 0 < a -> a <= b -> Zdigits2 a <= Zdigits2 b.
Proof.
  intros Ha Hab. rewrite !Zdigits2_log2 by lia.
  pose proof (Z.log2_le_mono a b Hab). lia.
Qed.

Lemma pow2_pos k : 0 <= k -> 0 < 2 ^ k.
Proof. intros Hk. apply Z.pow_pos_nonneg; lia. Qed.

Lemma Zdigits2_mul_pow2 a k :
  0 < a -> 0 <= k -> Zdigits2 (a * 2 ^ k) = Zdigits2 a + k.
Proof.
  intros Ha Hk. pose proof (pow2_pos k Hk).
  assert (0 < a * 2 ^ k) by (apply Z.mul_pos_pos; lia).
  rewrite !Zdigits2_log2 by lia.
  rewrite <- Z.shiftl_mul_pow2 by lia. rewrite Z.log2_shiftl by lia. lia.
Qed.

Lemma Zdigits2_div_pow2 a k :
  0 < a -> 0 <= k -> k < Zdigits2 a ->
  0 < a / 2 ^ k /\ Zdigits2 (a / 2 ^ k) = Zdigits2 a - k.
Proof.
  intros Ha Hk Hlt. rewrite Zdigits2_log2 in Hlt by lia.
  assert (Hp : 2 ^ k <= a).
  { apply Z.le_trans with (2 ^ Z.log2 a).
    - apply Z.pow_le_mono_r; lia.
    - apply Z.log2_spec; lia. }
  assert (Hq : 0 < a / 2 ^ k).
  { apply Z.div_str_pos. split; [apply pow2_pos; lia | exact Hp]. }
  split; [exact Hq|].
  rewrite !Zdigits2_log2 by lia.
  rewrite <- Z.shiftr_div_pow2 by lia. rewrite Z.log2_shiftr by lia.
  lia.
Qed.

Lemma Zdigits2_mul a b :
  0 < a -> 0 < b -> Zdigits2 a + Zdigits2 b - 1 <= Zdigits2 (a * b).
Proof.
  intros Ha Hb. rewrite !Zdigits2_log2 by lia.
  pose proof (Z.log2_mul_below a b Ha Hb). lia.
Qed.

(** *** Shifting the mantissa right *)

Lemma shr_1_m mrs : 0 <= shr_m mrs -> shr_m (shr_1 mrs) = shr_m mrs / 2.
Proof.
  destruct mrs as [m r s]; simpl. intros Hm.
  destruct m as [|p|p]; try lia; [reflexivity|].
  destruct p; simpl shr_m.
  - replace (Z.pos p~1) with (2 * Z.pos p + 1) by lia.
    apply Z.div_unique with 1; lia.
  - replace (Z.pos p~0) with (2 * Z.pos p) by lia.
    apply Z.div_unique with 0; lia.
  - reflexivity.
Qed.

Lemma div_nonneg a k : 0 <= a -> 0 < k -> 0 <= a / k.
Proof. intros. apply Z.div_pos; lia. Qed.

Lemma iter_pos_shr_m p : forall mrs,
  0 <= shr_m mrs -> shr_m (iter_pos shr_1 p mrs) = shr_m mrs / 2 ^ Zpos p.
Proof.
  induction p as [p IH|p IH|]; intros mrs Hm; simpl iter_pos.
  - assert (H1 : 0 <= shr_m (shr_1 mrs))
      by (rewrite shr_1_m by lia; apply div_nonneg; lia).
    assert (H2 : 0 <= shr_m (iter_pos shr_1 p (shr_1 mrs)))
      by (rewrite IH by lia; apply div_nonneg; [lia | apply pow2_pos; lia]).
    rewrite IH by lia. rewrite IH by lia. rewrite shr_1_m by lia.
    rewrite !Z.div_div by (try apply pow2_pos; lia).
    f_equal. replace (Z.pos p~1) with (1 + Z.pos p + Z.pos p) by lia.
    rewrite !Z.pow_add_r by lia. lia.
  - assert (H2 : 0 <= shr_m (iter_pos shr_1 p mrs))
      by (rewrite IH by lia; apply div_nonneg; [lia | apply pow2_pos; lia]).
    rewrite IH by lia. rewrite IH by lia.
    rewrite !Z.div_div by (try apply pow2_pos; lia).
    f_equal. replace (Z.pos p~0) with (Z.pos p + Z.pos p) by lia.
    rewrite !Z.pow_add_r by lia. lia.
  - rewrite shr_1_m by lia. reflexivity.
Qed.

Lemma shr_record_of_loc_m m l : shr_m (shr_record_of_loc m l) = m.
Proof. destruct l as [|[| |]]; reflexivity. Qed.

Lemma fexp_ge_emin e : emin <= fexp e.
Proof. unfold fexp, SpecFloat.fexp, emin. lia. Qed.

(** The truncation to the format keeps a mantissa non-negative and brings
    the exponent to [emin] at least; a mantissa whose magnitude is above
    [emin] stays nonzero and keeps its magnitude. *)
Lemma shr_fexp_spec m e l :
  0 <= m ->
  let '(mrs, e') := shr_fexp prec emax m e l in
  0 <= shr_m mrs /\ emin <= e' /\
  (0 < m -> emin < Zdigits2 m + e ->
   0 < shr_m mrs /\ Zdigits2 (shr_m mrs) + e' = Zdigits2 m + e).
Proof.
  intros Hm. unfold shr_fexp, shr. fold (fexp (Zdigits2 m + e)).
  pose proof (fexp_ge_emin (Zdigits2 m + e)) as Hf.
  destruct (fexp (Zdigits2 m + e) - e) as [|n|n] eqn:Hn.
  - rewrite shr_record_of_loc_m. repeat split; try lia.
  - rewrite iter_pos_shr_m by (rewrite shr_record_of_loc_m; lia).
    rewrite shr_record_of_loc_m. split; [|split].
    + apply div_nonneg; [lia | apply pow2_pos; lia].
    + lia.
    + intros Hpos Hmag.
      assert (Hk : Z.pos n < Zdigits2 m).
      { unfold fexp, SpecFloat.fexp in Hn, Hf. fold emin in Hn, Hf.
        unfold prec in *. lia. }
      destruct (Zdigits2_div_pow2 m (Z.pos n)) as [H1 H2]; try lia.
  - rewrite shr_record_of_loc_m. repeat split; try lia.
Qed.

Lemma round_nearest_even_ge m l : m <= round_nearest_even m l <= m + 1.
Proof.
  unfold round_nearest_even.
  destruct l as [|[| |]]; try destruct (Z.even m); lia.
Qed.

(** *** Rounding *)

Lemma binary_round_aux_wf sx m e l :
  0 <= m -> wf_sign sx (binary_round_aux prec emax sx m e l).
Proof.
  intros Hm. unfold binary_round_aux.
  pose proof (shr_fexp_spec m e l Hm) as H1.
  destruct (shr_fexp prec emax m e l) as [mrs' e'].
  destruct H1 as (Hm' & He' & _).
  pose proof (round_nearest_even_ge (shr_m mrs') (loc_of_shr_record mrs'))
    as Hr.
  set (m2 := round_nearest_even (shr_m mrs') (loc_of_shr_record mrs')) in *.
  pose proof (shr_fexp_spec m2 e' loc_Exact ltac:(lia)) as H2.
  destruct (shr_fexp prec emax m2 e' loc_Exact) as [mrs'' e''].
  destruct H2 as (Hm'' & He'' & _).
  destruct (shr_m mrs'') as [|p|p]; [reflexivity | | lia].
  destruct (_ <=? _); simpl; auto.
Qed.

Lemma binary_round_aux_big sx m e l :
  0 < m -> emin < Zdigits2 m + e ->
  big_sign sx (Zdigits2 m + e) (binary_round_aux prec emax sx m e l).
Proof.
  intros Hm Hmag. unfold binary_round_aux.
  pose proof (shr_fexp_spec m e l ltac:(lia)) as H1.
  destruct (shr_fexp prec emax m e l) as [mrs' e'].
  destruct H1 as (_ & He' & H1). destruct (H1 Hm Hmag) as (Hm' & Hd').
  clear H1.
  pose proof (round_nearest_even_ge (shr_m mrs') (loc_of_shr_record mrs'))
    as Hr.
  set (m2 := round_nearest_even (shr_m mrs') (loc_of_shr_record mrs')) in *.
  pose proof (Zdigits2_le (shr_m mrs') m2 Hm' ltac:(lia)) as Hdig.
  pose proof (Zdigits2_pos m2 ltac:(lia)) as Hdp.
  pose proof (shr_fexp_spec m2 e' loc_Exact ltac:(lia)) as H2.
  destruct (shr_fexp prec emax m2 e' loc_Exact) as [mrs'' e''].
  destruct H2 as (_ & He'' & H2). destruct H2 as (Hm'' & Hd''); try lia.
  destruct (shr_m mrs'') as [|p|p]; try lia.
  destruct (_ <=? _); simpl; auto.
  repeat split; auto; simpl in Hd''; lia.
Qed.

Lemma pos_iter_xO m d : Zpos (Pos.iter xO m d) = Zpos m * 2 ^ Zpos d.
Proof.
  induction d as [|d IH] using Pos.peano_ind.
  - simpl. lia.
  - rewrite Pos.iter_succ. rewrite Pos2Z.inj_succ, Z.pow_succ_r by lia.
    replace (Z.pos (Pos.iter xO m d)~0)
      with (2 * Z.pos (Pos.iter xO m d)) by lia.
    rewrite IH. lia.
Qed.

Lemma shl_align_spec m e t :
  let '(mz, ez) := shl_align m e t in
  (t < e -> Zpos mz = Zpos m * 2 ^ (e - t) /\ ez = t) /\
  (e <= t -> mz = m /\ ez = e).
Proof.
  unfold shl_align. destruct (t - e) as [|d|d] eqn:Hd.
  - split; [lia | auto].
  - split; [lia | auto].
  - split; [|lia]. intros _. rewrite pos_iter_xO. split; [|reflexivity].
    f_equal. f_equal. lia.
Qed.

Lemma shl_align_mag m e t :
  let '(mz, ez) := shl_align m e t in
  Zdigits2 (Zpos mz) + ez = Zdigits2 (Zpos m) + e.
Proof.
  pose proof (shl_align_spec m e t) as H.
  destruct (shl_align m e t) as [mz ez].
  destruct H as [H1 H2]. destruct (Z_lt_le_dec t e) as [Hlt|Hle].
  - destruct (H1 Hlt) as [-> ->]. rewrite Zdigits2_mul_pow2 by lia. lia.
  - destruct (H2 Hle) as [-> ->]. reflexivity.
Qed.

Lemma binary_round_wf s m e : wf_sign s (binary_round prec emax s m e).
Proof.
  unfold binary_round. destruct (shl_align _ _ _) as [mz ez].
  apply binary_round_aux_wf. lia.
Qed.

Lemma binary_round_big s m e :
  emin < Zdigits2 (Zpos m) + e ->
  big_sign s (Zdigits2 (Zpos m) + e) (binary_round prec emax s m e).
Proof.
  intros H. unfold binary_round.
  pose proof (shl_align_mag m e
                (SpecFloat.fexp prec emax (Z.pos (digits2_pos m) + e)))
    as Hmag.
  destruct (shl_align _ _ _) as [mz ez].
  rewrite <- Hmag. apply binary_round_aux_big; lia.
Qed.

(** *** The shapes and the operations *)

Lemma wf_sign_nonneg x : wf_sign false x -> nonneg x.
Proof. destruct x; simpl; auto. Qed.

Lemma big_sign_nonneg k x : big_sign false k x -> nonneg x.
Proof. destruct x; simpl; tauto. Qed.

Lemma big_sign_weaken k k' x :
  k' <= k -> big_sign false k x -> big_sign false k' x.
Proof.
  destruct x; simpl; auto. intros ? (? & ? & ?). repeat split; auto; lia.
Qed.

Lemma wf_sign_nonneg_or_nan x : wf_sign false x -> nonneg_or_nan x.
Proof. destruct x; simpl; tauto. Qed.

(** The sum of two positive finite numbers is not zero and at least as
    large in magnitude as each of them. *)
Lemma add_finite_big m1 e1 m2 e2 :
  emin <= e1 -> emin <= e2 ->
  big_sign false (Z.max (Zdigits2 (Zpos m1) + e1) (Zdigits2 (Zpos m2) + e2))
    (add (S754_finite false m1 e1) (S754_finite false m2 e2)).
Proof.
  intros H1 H2. unfold add, SFadd. cbv zeta. unfold cond_Zopp.
  set (ez := Z.min e1 e2).
  pose proof (shl_align_spec m1 e1 ez) as S1.
  pose proof (shl_align_spec m2 e2 ez) as S2.
  destruct (shl_align m1 e1 ez) as [a1 ea1], (shl_align m2 e2 ez) as [a2 ea2].
  cbn [fst]. change (Z.pos a1 + Z.pos a2) with (Z.pos (a1 + a2)).
  cbn [binary_normalize].
  assert (Ha1 : Zdigits2 (Zpos a1) + ez = Zdigits2 (Zpos m1) + e1).
  { destruct S1 as [Sa Sb]. destruct (Z_lt_le_dec ez e1) as [Hlt|Hle].
    - destruct (Sa Hlt) as [-> _]. rewrite Zdigits2_mul_pow2 by lia. lia.
    - destruct (Sb Hle) as [-> _]. unfold ez in *. f_equal. lia. }
  assert (Ha2 : Zdigits2 (Zpos a2) + ez = Zdigits2 (Zpos m2) + e2).
  { destruct S2 as [Sa Sb]. destruct (Z_lt_le_dec ez e2) as [Hlt|Hle].
    - destruct (Sa Hlt) as [-> _]. rewrite Zdigits2_mul_pow2 by lia. lia.
    - destruct (Sb Hle) as [-> _]. unfold ez in *. f_equal. lia. }
  assert (Hd1 : Zdigits2 (Zpos a1) <= Zdigits2 (Zpos (a1 + a2)))
    by (apply Zdigits2_le; lia).
  assert (Hd2 : Zdigits2 (Zpos a2) <= Zdigits2 (Zpos (a1 + a2)))
    by (apply Zdigits2_le; lia).
  pose proof (Zdigits2_pos (Zpos (a1 + a2)) ltac:(lia)) as Hp.
  apply big_sign_weaken with (k := Zdigits2 (Zpos (a1 + a2)) + ez); [lia|].
  apply binary_round_big. unfold ez in *. lia.
Qed.

Ltac float_cases x y Hx Hy :=
  destruct x as [?s|?s| |?s ?m ?e], y as [?s|?s| |?s ?m ?e];
  cbn [nonneg big_sign] in Hx, Hy; try tauto;
  try (subst; repeat match goal with b : bool |- _ => destruct b end;
       simpl; auto; fail).

Lemma add_nonneg x y : nonneg x -> nonneg y -> nonneg (add x y).
Proof.
  intros Hx Hy. float_cases x y Hx Hy.
  destruct Hx as [-> Hx], Hy as [-> Hy].
  eapply big_sign_nonneg. apply add_finite_big; assumption.
Qed.

Lemma add_big_r k x y :
  nonneg x -> big_sign false k y -> big_sign false k (add x y).
Proof.
  intros Hx Hy. float_cases x y Hx Hy.
  destruct Hx as [-> Hx], Hy as (-> & Hy & Hk).
  eapply big_sign_weaken; [|apply add_finite_big; assumption]. lia.
Qed.

Lemma add_big_l k x y :
  big_sign false k x -> nonneg y -> big_sign false k (add x y).
Proof.
  intros Hx Hy. float_cases x y Hx Hy.
  destruct Hy as [-> Hy], Hx as (-> & Hx & Hk).
  eapply big_sign_weaken; [|apply add_finite_big; assumption]. lia.
Qed.

Lemma mul_self_nonneg x : nonneg x -> nonneg (mul x x).
Proof.
  intros Hx. destruct x as [s|s| |s m e]; cbn [nonneg] in Hx.
  - exact I.
  - subst. reflexivity.
  - contradiction.
  - destruct Hx as [-> He]. apply wf_sign_nonneg.
    unfold mul, SFmul. apply binary_round_aux_wf. lia.
Qed.

(** A square does not underflow to zero while the magnitude of the number
    is above half of [emin]. *)
Lemma mul_self_big k x :
  emin < 2 * k - 1 ->
  big_sign false k x -> big_sign false (2 * k - 1) (mul x x).
Proof.
  intros Hk Hx. destruct x as [s|s| |s m e]; cbn [big_sign] in Hx;
    try contradiction.
  - subst. reflexivity.
  - destruct Hx as (-> & He & Hm). unfold mul, SFmul. cbn [xorb].
    pose proof (Zdigits2_mul (Zpos m) (Zpos m) ltac:(lia) ltac:(lia)) as Hd.
    change (Z.pos m * Z.pos m) with (Z.pos (m * m)) in Hd.
    eapply big_sign_weaken; [|apply binary_round_aux_big; lia]. lia.
Qed.

Lemma sqrt_core_spec m e :
  emin <= e ->
  let '(q, e', l) := SFsqrt_core_binary prec emax (Zpos m) e in
  0 < q /\ emin <= e'.
Proof.
  intros He. unfold SFsqrt_core_binary.
  set (e' := Z.min _ _).
  assert (He' : emin <= e' /\ 2 * e' <= e).
  { unfold e'.
    match goal with |- context [SpecFloat.fexp prec emax ?a] =>
      pose proof (fexp_ge_emin a) as Hf; unfold fexp in Hf;
      generalize dependent (SpecFloat.fexp prec emax a) end.
    intros f e0 Hf. clear e0. change IntDef.Z.div2 with Z.div2.
    rewrite (Z.div2_div e). change emin with (-1074) in *.
    pose proof (Z.div_mod e 2 ltac:(lia)).
    pose proof (Z.mod_pos_bound e 2 ltac:(lia)).
    lia. }
  set (m' := match e - 2 * e' with Z0 => _ | Zpos _ => _ | Zneg _ => _ end).
  assert (Hm' : 0 < m').
  { unfold m'. destruct (e - 2 * e') as [|p|p] eqn:Hs; try lia.
    rewrite Z.shiftl_mul_pow2 by lia.
    apply Z.mul_pos_pos; [lia | apply pow2_pos; lia]. }
  pose proof (Z.sqrtrem_spec m' ltac:(lia)) as Hq.
  destruct (Z.sqrtrem m') as [q r]. split; [nia | lia].
Qed.

(** The square root of a positive number is positive. *)
Lemma sqrt_big k x : big_sign false k x -> big_sign false (emin + 1) (sqrt x).
Proof.
  intros Hx. destruct x as [s|s| |s m e]; cbn [big_sign] in Hx;
    try contradiction.
  - subst. reflexivity.
  - destruct Hx as (-> & He & _). unfold sqrt, SFsqrt.
    pose proof (sqrt_core_spec m e He) as H.
    destruct (SFsqrt_core_binary prec emax (Z.pos m) e) as [[q e'] l].
    destruct H as [Hq He'].
    pose proof (Zdigits2_pos q Hq).
    eapply big_sign_weaken; [|apply binary_round_aux_big; lia]. lia.
Qed.

Lemma ltb_zero_big k x : big_sign false k x -> ltb zero x = true.
Proof.
  destruct x as [s|s| |s m e]; cbn [big_sign]; try contradiction.
  - intros ->. reflexivity.
  - intros (-> & _). reflexivity.
Qed.

(** Whatever the numbers, a square is not negative and a sum of numbers
    that are not negative is not negative. *)
Lemma mul_self_sign x : nonneg_or_nan (mul x x).
Proof.
  destruct x as [s|s| |s m e]; simpl; auto.
  - destruct s; reflexivity.
  - apply wf_sign_nonneg_or_nan.
    replace (xorb s s) with false by (destruct s; reflexivity).
    apply binary_round_aux_wf. lia.
Qed.

Lemma add_sign x y :
  nonneg_or_nan x -> nonneg_or_nan y -> nonneg_or_nan (add x y).
Proof.
  intros Hx Hy.
  destruct x as [sx|sx| |sx mx ex], y as [sy|sy| |sy my ey];
    cbn [nonneg_or_nan] in Hx, Hy; subst; try exact I; try reflexivity.
  - destruct sx, sy; exact I.
  - apply wf_sign_nonneg_or_nan. unfold add, SFadd. cbv zeta.
    unfold cond_Zopp.
    match goal with |- context [Z.pos ?a + Z.pos ?b] =>
      change (Z.pos a + Z.pos b) with (Z.pos (a + b)) end.
    cbn [binary_normalize]. apply binary_round_wf.
Qed.

Lemma ltb_sign x : nonneg_or_nan x -> ltb x zero = false.
Proof.
  destruct x as [s|s| |s m e]; cbn [nonneg_or_nan]; intros; subst;
    reflexivity.
Qed.

(** *** Saturation of a sum of small terms *)

Lemma Zdigits2_le_pow2 m k : 0 <= m -> 0 <= k -> m < 2 ^ k -> Zdigits2 m <= k.
Proof.
  intros Hm Hk Hlt. destruct (Z.eq_dec m 0) as [->|Hne]; [simpl; lia|].
  rewrite Zdigits2_log2 by lia.
  assert (Z.log2 m < k) by (apply Z.log2_lt_pow2; lia). lia.
Qed.

Lemma Zdigits2_lt_pow2 m : 0 <= m -> m < 2 ^ Zdigits2 m.
Proof.
  intros Hm. destruct (Z.eq_dec m 0) as [->|Hne]; [simpl; lia|].
  rewrite Zdigits2_log2 by lia.
  replace (Z.log2 m + 1) with (Z.succ (Z.log2 m)) by lia.
  apply Z.log2_spec. lia.
Qed.

Lemma Zdigits2_ge_pow2 m k : 0 <= k -> 2 ^ k <= m -> k < Zdigits2 m.
Proof.
  intros Hk Hle. pose proof (pow2_pos k Hk).
  rewrite Zdigits2_log2 by lia.
  assert (k <= Z.log2 m) by (apply Z.log2_le_pow2; lia). lia.
Qed.

Lemma Zdigits2_nonneg m : 0 <= m -> 0 <= Zdigits2 m.
Proof.
  intros Hm. destruct (Z.eq_dec m 0) as [->|Hne]; [simpl; lia|].
  pose proof (Zdigits2_pos m). lia.
Qed.

Lemma shr_1_r mrs :
  0 <= shr_m mrs -> shr_r (shr_1 mrs) = Z.testbit (shr_m mrs) 0.
Proof.
  destruct mrs as [m r s]; simpl. intros Hm.
  destruct m as [|p|p]; try lia; [reflexivity|].
  destruct p; reflexivity.
Qed.

Lemma iter_pos_shr_r p : forall mrs,
  0 <= shr_m mrs ->
  shr_r (iter_pos shr_1 p mrs) = Z.testbit (shr_m mrs) (Zpos p - 1).
Proof.
  induction p as [p IH|p IH|]; intros mrs Hm; simpl iter_pos.
  - assert (H1 : 0 <= shr_m (shr_1 mrs))
      by (rewrite shr_1_m by lia; apply div_nonneg; lia).
    assert (H2 : 0 <= shr_m (iter_pos shr_1 p (shr_1 mrs)))
      by (rewrite iter_pos_shr_m by lia;
          apply div_nonneg; [lia | apply pow2_pos; lia]).
    rewrite IH by lia. rewrite iter_pos_shr_m by lia. rewrite shr_1_m by lia.
    rewrite Z.div_pow2_bits by lia.
    change 2 with (2 ^ 1) at 1. rewrite Z.div_pow2_bits by lia.
    f_equal. lia.
  - assert (H2 : 0 <= shr_m (iter_pos shr_1 p mrs))
      by (rewrite iter_pos_shr_m by lia;
          apply div_nonneg; [lia | apply pow2_pos; lia]).
    rewrite IH by lia. rewrite iter_pos_shr_m by lia.
    rewrite Z.div_pow2_bits by lia. f_equal. lia.
  - apply shr_1_r, Hm.
Qed.

(** The second truncation of [binary_round_aux], on a mantissa below
    [2^(54 - e)] with [e <= 1]: a canonical number with exponent at most
    1. *)
Lemma round_end_below m e :
  0 <= m -> e <= 1 -> Zdigits2 m + e <= 54 ->
  below 1
    (let '(mrs, e') := shr_fexp prec emax m e loc_Exact in
     match shr_m mrs with
     | 0 => S754_zero false
     | Zpos p =>
         if e' <=? emax - prec then S754_finite false p e'
         else S754_infinity false
     | Zneg _ => S754_nan
     end).
Proof.
  intros Hm He HD. unfold shr_fexp, shr.
  fold (fexp (Zdigits2 m + e)).
  assert (Hf : fexp (Zdigits2 m + e)
               = Z.max (Zdigits2 m + e - 53) (-1074)) by reflexivity.
  pose proof (Zdigits2_nonneg m Hm) as Hd0.
  destruct (fexp (Zdigits2 m + e) - e) as [|n|n] eqn:Hn.
  - cbn [shr_record_of_loc shr_m]. destruct m as [|p|p]; [exact I | | lia].
    replace (e <=? emax - prec) with true
      by (symmetry; apply Z.leb_le; unfold emax, prec; lia).
    cbn [below]. unfold prec. repeat split; lia.
  - rewrite iter_pos_shr_m by (rewrite shr_record_of_loc_m; lia).
    rewrite shr_record_of_loc_m.
    set (e' := e + Z.pos n).
    assert (He' : e' <= 1) by (unfold e'; lia).
    pose proof (pow2_pos (Z.pos n) ltac:(lia)) as Hp.
    pose proof (div_nonneg m (2 ^ Z.pos n) Hm Hp) as Hq.
    destruct (m / 2 ^ Z.pos n) as [|q|q] eqn:Eq; [exact I | | lia].
    replace (e' <=? emax - prec) with true
      by (symmetry; apply Z.leb_le; unfold emax, prec; lia).
    cbn [below]. unfold prec. repeat split; try lia.
    rewrite <- Eq.
    assert (Hpos : 0 < m).
    { destruct (Z.eq_dec m 0) as [->|]; [discriminate | lia]. }
    assert (Hlt : Z.pos n < Zdigits2 m).
    { destruct (Z_lt_le_dec (Z.pos n) (Zdigits2 m)) as [H|H]; [exact H|].
      exfalso.
      assert (m < 2 ^ Z.pos n).
      { apply Z.lt_le_trans with (2 ^ Zdigits2 m);
          [apply Zdigits2_lt_pow2, Hm | apply Z.pow_le_mono_r; lia]. }
      rewrite Z.div_small in Eq by lia. discriminate. }
    destruct (Zdigits2_div_pow2 m (Z.pos n)) as [_ ->]; lia.
  - cbn [shr_record_of_loc shr_m]. destruct m as [|p|p]; [exact I | | lia].
    replace (e <=? emax - prec) with true
      by (symmetry; apply Z.leb_le; unfold emax, prec; lia).
    cbn [below]. unfold prec. repeat split; lia.
Qed.

(** Rounding a mantissa below [2^(54 - e)]: when the value is below [2^53],
    or when the bit that decides the rounding at exponent 1 is not set, the
    result has an exponent of at most 1. *)
Lemma binary_round_aux_below m e :
  0 < m -> e <= 1 -> Zdigits2 m + e <= 54 ->
  Zdigits2 m + e <= 53 \/ (e <= 0 /\ Z.testbit m (- e) = false) ->
  below 1 (binary_round_aux prec emax false m e loc_Exact).
Proof.
  intros Hm He HD Hcase. unfold binary_round_aux, shr_fexp at 1, shr.
  fold (fexp (Zdigits2 m + e)).
  assert (Hf : fexp (Zdigits2 m + e)
               = Z.max (Zdigits2 m + e - 53) (-1074)) by reflexivity.
  pose proof (Zdigits2_pos m Hm) as Hd0.
  destruct (fexp (Zdigits2 m + e) - e) as [|n|n] eqn:Hn.
  - cbn [shr_record_of_loc loc_of_shr_record shr_m round_nearest_even].
    apply round_end_below; lia.
  - set (mrs' := iter_pos shr_1 n (shr_record_of_loc m loc_Exact)).
    assert (Hm' : shr_m mrs' = m / 2 ^ Z.pos n).
    { unfold mrs'. rewrite iter_pos_shr_m; cbn [shr_record_of_loc shr_m];
        [reflexivity | lia]. }
    assert (Hr' : shr_r mrs' = Z.testbit m (Z.pos n - 1)).
    { unfold mrs'. rewrite iter_pos_shr_r; cbn [shr_record_of_loc shr_m];
        [reflexivity | lia]. }
    pose proof (round_nearest_even_ge (shr_m mrs') (loc_of_shr_record mrs'))
      as Hr.
    assert (Hexact : shr_r mrs' = false ->
                     round_nearest_even (shr_m mrs') (loc_of_shr_record mrs')
                     = shr_m mrs').
    { destruct mrs' as [a r s]. cbn [shr_r shr_m]. intros ->.
      destruct s; reflexivity. }
    set (m2 := round_nearest_even (shr_m mrs') (loc_of_shr_record mrs')) in *.
    pose proof (pow2_pos (Z.pos n) ltac:(lia)) as Hp.
    pose proof (div_nonneg m (2 ^ Z.pos n) ltac:(lia) Hp) as Hq.
    pose proof (Zdigits2_lt_pow2 m ltac:(lia)) as Hlt.
    assert (Hbound : m2 < 2 ^ (54 - (e + Z.pos n))).
    { destruct Hcase as [H53|[He0 Hbit]].
      - assert (m / 2 ^ Z.pos n < 2 ^ (53 - (e + Z.pos n))).
        { apply Z.div_lt_upper_bound; [lia|].
          rewrite <- Z.pow_add_r by lia.
          apply Z.lt_le_trans with (2 ^ Zdigits2 m); [exact Hlt|].
          apply Z.pow_le_mono_r; lia. }
        replace (54 - (e + Z.pos n)) with (Z.succ (53 - (e + Z.pos n)))
          by lia.
        rewrite Z.pow_succ_r by lia.
        pose proof (pow2_pos (53 - (e + Z.pos n)) ltac:(lia)). lia.
      - destruct (Z_le_gt_dec (Zdigits2 m + e) 53) as [H53|H54].
        + assert (m / 2 ^ Z.pos n < 2 ^ (53 - (e + Z.pos n))).
          { apply Z.div_lt_upper_bound; [lia|].
            rewrite <- Z.pow_add_r by lia.
            apply Z.lt_le_trans with (2 ^ Zdigits2 m); [exact Hlt|].
            apply Z.pow_le_mono_r; lia. }
          replace (54 - (e + Z.pos n)) with (Z.succ (53 - (e + Z.pos n)))
            by lia.
          rewrite Z.pow_succ_r by lia.
          pose proof (pow2_pos (53 - (e + Z.pos n)) ltac:(lia)). lia.
        + assert (Hn1 : Z.pos n = 1 - e) by lia.
          rewrite Hexact by (rewrite Hr'; rewrite Hn1;
                             replace (1 - e - 1) with (- e) by lia;
                             exact Hbit).
          rewrite Hm'. apply Z.div_lt_upper_bound; [lia|].
          rewrite <- Z.pow_add_r by lia.
          apply Z.lt_le_trans with (2 ^ Zdigits2 m); [exact Hlt|].
          apply Z.pow_le_mono_r; lia. }
    apply round_end_below; [lia | lia |].
    pose proof (Zdigits2_le_pow2 m2 (54 - (e + Z.pos n))
                  ltac:(lia) ltac:(lia) Hbound). lia.
  - cbn [shr_record_of_loc loc_of_shr_record shr_m round_nearest_even].
    apply round_end_below; lia.
Qed.

Lemma binary_round_below m e :
  e <= 0 -> Zdigits2 (Zpos m) + e <= 54 ->
  Zdigits2 (Zpos m) + e <= 53 \/ Z.testbit (Zpos m) (- e) = false ->
  below 1 (binary_round prec emax false m e).
Proof.
  intros He HD Hcase. unfold binary_round.
  pose proof (shl_align_spec m e
                (SpecFloat.fexp prec emax (Z.pos (digits2_pos m) + e)))
    as Hs.
  pose proof (shl_align_mag m e
                (SpecFloat.fexp prec emax (Z.pos (digits2_pos m) + e)))
    as Hmag.
  assert (Hf : SpecFloat.fexp prec emax (Z.pos (digits2_pos m) + e)
               = Z.max (Zdigits2 (Zpos m) + e - 53) (-1074)) by reflexivity.
  destruct (shl_align _ _ _) as [mz ez]. destruct Hs as [Hs1 Hs2].
  destruct (Z_lt_le_dec
              (SpecFloat.fexp prec emax (Z.pos (digits2_pos m) + e)) e)
    as [Hlt|Hle].
  - destruct (Hs1 Hlt) as [_ ->].
    apply binary_round_aux_below; try lia.
  - destruct (Hs2 Hle) as [-> ->].
    apply binary_round_aux_below; try lia.
    destruct Hcase as [H|H]; [left; exact H | right; split; [lia | exact H]].
Qed.

Lemma below_weaken k k' x : k <= k' -> below k x -> below k' x.
Proof.
  intros Hk. destruct x as [s|s| |s m e]; cbn [below]; try tauto.
  intros (Hs & Hd & He). repeat split; try assumption. lia.
Qed.

Lemma belowb_below k x : belowb k x = true -> below k x.
Proof.
  destruct x as [s|s| |s m e]; cbn [belowb below]; try discriminate; auto.
  intros H. apply andb_prop in H. destruct H as [H H3].
  apply andb_prop in H. destruct H as [H1 H2].
  apply Z.leb_le in H2, H3. destruct s; [discriminate|]. auto.
Qed.

Lemma below_finite k x : below k x -> is_nan x = false /\ is_inf x = false.
Proof. destruct x; cbn [below]; intros H; try destruct H; auto. Qed.

(** Adding a term below [2^-3] to a sum below [2^54] leaves it below
    [2^54]: from the exponent 1 on, the term is less than half a unit in the
    last place and the sum stays where it is. *)
Lemma add_below x t : below 1 x -> below (-56) t -> below 1 (add x t).
Proof.
  intros Hx Ht.
  destruct x as [sx|sx| |sx mx ex], t as [st|st| |st mt et];
    cbn [below] in Hx, Ht; try tauto.
  - destruct sx, st; exact I.
  - destruct Ht as (-> & Hd & He). unfold add. cbn [SFadd below].
    repeat split; [exact Hd | lia].
  - exact Hx.
  - destruct Hx as (-> & Hdx & Hex), Ht as (-> & Hdt & Het).
    unfold prec in *.
    unfold add, SFadd. cbv zeta. unfold cond_Zopp.
    assert (Hez : Z.min ex et <= et) by lia.
    set (ez := Z.min ex et) in *.
    pose proof (shl_align_spec mx ex ez) as S1.
    pose proof (shl_align_spec mt et ez) as S2.
    destruct (shl_align mx ex ez) as [a1 ea1],
             (shl_align mt et ez) as [a2 ea2].
    cbn [fst]. change (Z.pos a1 + Z.pos a2) with (Z.pos (a1 + a2)).
    cbn [binary_normalize].
    pose proof (Zdigits2_lt_pow2 (Zpos mx) ltac:(lia)) as Hmx.
    pose proof (Zdigits2_lt_pow2 (Zpos mt) ltac:(lia)) as Hmt.
    assert (Hmx53 : Zpos mx < 2 ^ 53).
    { eapply Z.lt_le_trans; [exact Hmx | apply Z.pow_le_mono_r; lia]. }
    assert (Hmt53 : Zpos mt < 2 ^ 53).
    { eapply Z.lt_le_trans; [exact Hmt | apply Z.pow_le_mono_r; lia]. }
    assert (Ha1 : Zpos a1 = Zpos mx * 2 ^ (ex - ez)).
    { destruct S1 as [Sa Sb]. destruct (Z_lt_le_dec ez ex) as [Hlt|Hle].
      - apply (Sa Hlt).
      - destruct (Sb Hle) as [-> _]. replace (ex - ez) with 0 by lia. lia. }
    assert (Ha2 : Zpos a2 = Zpos mt * 2 ^ (et - ez)).
    { destruct S2 as [Sa Sb]. destruct (Z_lt_le_dec ez et) as [Hlt|Hle].
      - apply (Sa Hlt).
      - destruct (Sb Hle) as [-> _]. replace (et - ez) with 0 by lia. lia. }
    assert (Hsum : Zpos (a1 + a2) = Zpos a1 + Zpos a2) by lia.
    (* the term, aligned, is below 2^(- ez - 3) *)
    assert (Hsmall : Zpos a2 < 2 ^ (- ez - 3)).
    { rewrite Ha2.
      apply Z.lt_le_trans with (2 ^ 53 * 2 ^ (et - ez)).
      - apply Z.mul_lt_mono_pos_r; [apply pow2_pos; lia | exact Hmt53].
      - rewrite <- Z.pow_add_r by lia. apply Z.pow_le_mono_r; lia. }
    pose proof (pow2_pos (- ez - 3) ltac:(lia)) as Hp3.
    assert (Hpow : 2 ^ (- ez) = 8 * 2 ^ (- ez - 3)).
    { replace (- ez) with (3 + (- ez - 3)) at 1 by lia.
      rewrite Z.pow_add_r by lia. reflexivity. }
    destruct (Z_le_gt_dec ex 0) as [Hex0|Hex1].
    + (* the sum is below 2^53 *)
      assert (Hbig : Zpos a1 <= (2 ^ 53 - 1) * 2 ^ (- ez)).
      { rewrite Ha1.
        apply Z.le_trans with ((2 ^ 53 - 1) * 2 ^ (ex - ez)).
        - apply Z.mul_le_mono_nonneg_r; [apply Z.pow_nonneg; lia | lia].
        - apply Z.mul_le_mono_nonneg_l; [lia|].
          apply Z.pow_le_mono_r; lia. }
      assert (Hlt : Zpos (a1 + a2) < 2 ^ (53 - ez)).
      { replace (53 - ez) with (53 + - ez) by lia.
        rewrite Z.pow_add_r by lia. rewrite Hsum. lia. }
      pose proof (Zdigits2_le_pow2 (Zpos (a1 + a2)) (53 - ez)
                    ltac:(lia) ltac:(lia) Hlt) as Hd.
      apply binary_round_below; lia.
    + (* the exponent of the sum is 1: the term falls below the half unit *)
      assert (Hex1' : ex = 1) by lia. subst ex.
      assert (Hezt : ez = et) by (unfold ez; lia).
      assert (Hbig : Zpos a1 = 2 * Zpos mx * 2 ^ (- ez)).
      { rewrite Ha1. replace (1 - ez) with (1 + - ez) by lia.
        rewrite Z.pow_add_r by lia. lia. }
      assert (Hlt : Zpos (a1 + a2) < 2 ^ (54 - ez)).
      { replace (54 - ez) with (54 + - ez) by lia.
        rewrite Z.pow_add_r by lia. rewrite Hsum, Hbig.
        pose proof (pow2_pos (- ez) ltac:(lia)).
        assert (2 * Z.pos mx * 2 ^ (- ez) <= (2 ^ 54 - 2) * 2 ^ (- ez))
          by (apply Z.mul_le_mono_nonneg_r; lia).
        lia. }
      pose proof (Zdigits2_le_pow2 (Zpos (a1 + a2)) (54 - ez)
                    ltac:(lia) ltac:(lia) Hlt) as Hd.
      apply binary_round_below; [lia | lia |]. right.
      rewrite Hsum, Hbig.
      rewrite Z.testbit_eqb by lia.
      pose proof (pow2_pos (- ez) ltac:(lia)) as Hpe.
      replace ((2 * Z.pos mx * 2 ^ (- ez) + Z.pos a2) / 2 ^ (- ez))
        with (2 * Z.pos mx).
      * rewrite Z.mul_comm, Z.mod_mul by lia. reflexivity.
      * apply Z.div_unique with (Z.pos a2); lia.
Qed.

(** *** Division by a positive number, and [==] *)

Lemma div_core_nonneg m1 e1 m2 e2 :
  0 < m1 -> 0 < m2 ->
  let '(q, _, _) := SFdiv_core_binary prec emax m1 e1 m2 e2 in 0 <= q.
Proof.
  intros H1 H2. unfold SFdiv_core_binary.
  set (s := e1 - e2 - _).
  set (m' := match s with Z.pos _ => Z.shiftl m1 s | 0 => m1 | _ => 0 end).
  assert (Hm' : 0 <= m').
  { unfold m'. destruct s; try lia. apply Z.shiftl_nonneg. lia. }
  pose proof (Z.div_pos m' m2 Hm' H2) as Hq. unfold Z.div in Hq.
  destruct (Z.div_eucl m' m2) as [q r]. exact Hq.
Qed.

Lemma div_not_nan x y :
  is_nan x = false -> is_inf x = false -> ltb zero y = true ->
  is_nan (div x y) = false.
Proof.
  intros Hn Hi Hy.
  destruct y as [sy|sy| |sy my ey]; try discriminate;
    destruct x as [sx|sx| |sx mx ex]; try discriminate; try reflexivity.
  unfold div, SFdiv.
  pose proof (div_core_nonneg (Zpos mx) ex (Zpos my) ey
                ltac:(lia) ltac:(lia)) as Hq.
  destruct (SFdiv_core_binary prec emax (Z.pos mx) ex (Z.pos my) ey)
    as [[q e] l].
  pose proof (binary_round_aux_wf (xorb sx sy) q e l Hq) as Hwf.
  destruct (binary_round_aux prec emax (xorb sx sy) q e l);
    [reflexivity | reflexivity | destruct Hwf | reflexivity].
Qed.

Lemma eqb_refl x : is_nan x = false -> eqb x x = true.
Proof.
  destruct x as [s|s| |s m e]; intros H; try discriminate.
  - reflexivity.
  - destruct s; reflexivity.
  - unfold eqb, SFeqb, SFcompare.
    rewrite Z.compare_refl, Pos.compare_cont_refl. destruct s; reflexivity.
Qed.

End F64Facts.

Import F64Facts.

(** ** The order of the comparisons *)

Module F64Order.

Lemma key_lt_trans a b c : key_lt a b -> key_lt b c -> key_lt a c.
Proof.
  destruct a as [[a1 a2] a3], b as [[b1 b2] b3], c as [[c1 c2] c3].
  unfold key_lt. lia.
Qed.

Lemma key_lt_irrefl a : ~ key_lt a a.
Proof. destruct a as [[a1 a2] a3]. unfold key_lt. lia. Qed.

Lemma key_total a b : key_lt a b \/ a = b \/ key_lt b a.
Proof.
  destruct a as [[a1 a2] a3], b as [[b1 b2] b3]. unfold key_lt.
  destruct (Z.lt_trichotomy a1 b1) as [?|[->|?]];
    [left; lia | | right; right; lia].
  destruct (Z.lt_trichotomy a2 b2) as [?|[->|?]];
    [left; lia | | right; right; lia].
  destruct (Z.lt_trichotomy a3 b3) as [?|[->|?]];
    [left; lia | | right; right; lia].
  right; left; reflexivity.
Qed.

Ltac compare_cases :=
  repeat match goal with
    | |- context [Z.compare ?a ?b] => destruct (Z.compare_spec a b)
    | |- context [Pos.compare_cont Eq ?a ?b] =>
        rewrite (Pos.compare_cont_spec a b Eq);
        destruct (Pos.compare_spec a b)
    end.

Lemma compare_key x y :
  is_nan x = false -> is_nan y = false ->
  match SFcompare x y with
  | Some Lt => key_lt (key x) (key y)
  | Some Eq => key x = key y
  | Some Gt => key_lt (key y) (key x)
  | None => False
  end.
Proof.
  intros Hx Hy.
  destruct x as [sx|sx| |sx mx ex], y as [sy|sy| |sy my ey];
    try discriminate; try destruct sx; try destruct sy;
    cbn [SFcompare key]; try (unfold key_lt; lia); try reflexivity;
    compare_cases; cbn [CompOpp Pos.switch_Eq]; unfold key_lt; subst;
    try reflexivity; lia.
Qed.

Lemma compare_nan_l y : SFcompare S754_nan y = None.
Proof. reflexivity. Qed.

Lemma compare_nan_r x : SFcompare x S754_nan = None.
Proof. destruct x; reflexivity. Qed.

Lemma compare_some x y c :
  SFcompare x y = Some c -> is_nan x = false /\ is_nan y = false.
Proof.
  destruct x, y; cbn [SFcompare is_nan]; intros H; try discriminate; auto.
Qed.

Lemma ltb_key x y :
  ltb x y = true <->
  is_nan x = false /\ is_nan y = false /\ key_lt (key x) (key y).
Proof.
  unfold ltb, SFltb. split.
  - destruct (SFcompare x y) as [[| |]|] eqn:Hc; try discriminate. intros _.
    destruct (compare_some _ _ _ Hc) as [Hx Hy].
    pose proof (compare_key x y Hx Hy) as H. rewrite Hc in H. auto.
  - intros (Hx & Hy & Hk). pose proof (compare_key x y Hx Hy) as H.
    destruct (SFcompare x y) as [[| |]|]; try reflexivity; try contradiction.
    + rewrite H in Hk. destruct (key_lt_irrefl _ Hk).
    + destruct (key_lt_irrefl _ (key_lt_trans _ _ _ H Hk)).
Qed.

Lemma leb_key x y :
  leb x y = true <->
  is_nan x = false /\ is_nan y = false /\
  (key_lt (key x) (key y) \/ key x = key y).
Proof.
  unfold leb, SFleb. split.
  - destruct (SFcompare x y) as [[| |]|] eqn:Hc; try discriminate; intros _;
      destruct (compare_some _ _ _ Hc) as [Hx Hy];
      pose proof (compare_key x y Hx Hy) as H; rewrite Hc in H; auto.
  - intros (Hx & Hy & Hk). pose proof (compare_key x y Hx Hy) as H.
    destruct (SFcompare x y) as [[| |]|]; try reflexivity; try contradiction.
    destruct Hk as [Hk|Hk].
    + destruct (key_lt_irrefl _ (key_lt_trans _ _ _ H Hk)).
    + rewrite Hk in H. destruct (key_lt_irrefl _ H).
Qed.

Lemma ltb_nan_l y : ltb S754_nan y = false.
Proof. reflexivity. Qed.

Lemma ltb_nan_r x : ltb x S754_nan = false.
Proof. unfold ltb, SFltb. rewrite compare_nan_r. reflexivity. Qed.

(** A number at or above [a] is not strictly below it. *)
Lemma leb_not_ltb a b : leb a b = true -> ltb b a = false.
Proof.
  intros H. apply leb_key in H. destruct H as (_ & _ & H).
  destruct (ltb b a) eqn:Hl; [|reflexivity].
  apply ltb_key in Hl. destruct Hl as (_ & _ & Hl). exfalso.
  destruct H as [H|H].
  - exact (key_lt_irrefl _ (key_lt_trans _ _ _ H Hl)).
  - rewrite H in Hl. exact (key_lt_irrefl _ Hl).
Qed.

Lemma leb_ltb_trans a b c : leb a b = true -> ltb b c = true -> ltb a c = true.
Proof.
  intros H1 H2. apply leb_key in H1. apply ltb_key in H2. apply ltb_key.
  destruct H1 as (Ha & _ & H1), H2 as (_ & Hc & H2). repeat split; auto.
  destruct H1 as [H1|H1]; [eapply key_lt_trans; eauto | rewrite H1; auto].
Qed.

Lemma ltb_leb_trans a b c : ltb a b = true -> leb b c = true -> ltb a c = true.
Proof.
  intros H1 H2. apply ltb_key in H1. apply leb_key in H2. apply ltb_key.
  destruct H1 as (Ha & _ & H1), H2 as (_ & Hc & H2). repeat split; auto.
  destruct H2 as [H2|H2]; [eapply key_lt_trans; eauto | rewrite <- H2; auto].
Qed.

Lemma ltb_leb a b : ltb a b = true -> leb a b = true.
Proof.
  intros H. apply ltb_key in H. apply leb_key. intuition.
Qed.

Lemma leb_trans a b c : leb a b = true -> leb b c = true -> leb a c = true.
Proof.
  intros H1 H2. apply leb_key in H1. apply leb_key in H2. apply leb_key.
  destruct H1 as (Ha & _ & H1), H2 as (_ & Hc & H2). repeat split; auto.
  destruct H1 as [H1|H1], H2 as [H2|H2].
  - left. eapply key_lt_trans; eauto.
  - left. rewrite <- H2. exact H1.
  - left. rewrite H1. exact H2.
  - right. congruence.
Qed.

(** The comparison is total on numbers. *)
Lemma not_ltb_leb a b :
  is_nan a = false -> is_nan b = false -> ltb a b = false -> leb b a = true.
Proof.
  intros Ha Hb H. apply leb_key. repeat split; auto.
  destruct (key_total (key a) (key b)) as [Hk|[Hk|Hk]]; auto.
  assert (ltb a b = true) by (apply ltb_key; auto). congruence.
Qed.

Lemma leb_refl a : is_nan a = false -> leb a a = true.
Proof. intros Ha. apply leb_key. auto. Qed.

End F64Order.

Import F64Order.

(** ** The literals and the examples of the script *)

(** Each literal is the binary64 number nearest to its decimal value: the
    correctly rounded quotient, or the exact integer. *)
Lemma literals_correctly_rounded :
  div (of_int 1) (of_int 10) = f0_1
  /\ div (of_int 9) (of_int 10) = f0_9
  /\ div (of_int 11) (of_int 10) = f1_1
  /\ div (of_int 1) (of_int 1000000) = f1em6
  /\ of_int 255 = f255 /\ of_int 1000 = f1000
  /\ of_int 10 = f10 /\ of_int (-10) = fm10
  /\ div (of_int 1) (of_int 2) = f0_5
  /\ div (of_int 3) (of_int 2) = f1_5
  /\ of_int 15 = f15.
Proof. repeat split. Qed.

Lemma literals_valid :
  forallb (valid_binary prec emax)
          [zero; f0_1; f0_9; f1_1; f1em6; f255; f1000; f10; fm10;
           f0_5; f1_5; f15] = true.
Proof. reflexivity. Qed.

(** ** The Python primitives on the inputs the script gives them *)

Lemma bind_ok {A B : Type} (a : A) (k : A -> result B) : bind (Ok a) k = k a.
Proof. reflexivity. Qed.

(** A loop whose body never raises while an invariant holds is a fold. *)
Lemma foldM_fold_left {A S : Type} (I : S -> Prop) (body : S -> A -> result S)
      (f : S -> A -> S) (xs : list A) :
  (forall s x, I s -> body s x = Ok (f s x) /\ I (f s x)) ->
  forall s, I s ->
    foldM body xs s = Ok (fold_left f xs s) /\ I (fold_left f xs s).
Proof.
  intros Hbody. induction xs as [|x xs IH]; intros s Hs; cbn [foldM fold_left].
  - auto.
  - destruct (Hbody s x Hs) as [-> Hs']. rewrite bind_ok. apply IH, Hs'.
Qed.

Lemma forallb_range (P : Z -> bool) (n : Z) :
  forallb P (range n) = true -> forall k, 0 <= k < n -> P k = true.
Proof.
  intros H k Hk. rewrite forallb_forall in H. apply H.
  unfold range. apply in_map_iff. exists (Z.to_nat k). split; [lia|].
  apply in_seq. lia.
Qed.

Lemma of_int_zero : of_int 0 = zero.
Proof. reflexivity. Qed.

Lemma nonnegb_nonneg x : nonnegb x = true -> nonneg x.
Proof.
  destruct x as [s|s| |s m e]; cbn [nonnegb nonneg]; intros H;
    try discriminate; auto.
  - destruct s; [discriminate | reflexivity].
  - apply andb_prop in H. destruct H as [Hs He]. apply Z.leb_le in He.
    destruct s; [discriminate | auto].
Qed.

Lemma bigb_big k x : bigb k x = true -> big_sign false k x.
Proof.
  destruct x as [s|s| |s m e]; cbn [bigb big_sign]; intros H;
    try discriminate.
  - destruct s; [discriminate | reflexivity].
  - apply andb_prop in H. destruct H as [H Hk]. apply andb_prop in H.
    destruct H as [Hs He]. apply Z.leb_le in He, Hk.
    destruct s; [discriminate | auto].
Qed.

(** The 255 possible character terms and the 100 possible hash terms. *)
Lemma small_int_table :
  forallb (fun k => negb (is_inf (of_int k))) (range 255) = true.
Proof. vm_compute. reflexivity. Qed.

Lemma char_term_table :
  forallb (fun k => nonnegb (mul (div (of_int k) f255) f0_1)) (range 255)
  = true.
Proof. vm_compute. reflexivity. Qed.

Lemma hash_term_table :
  forallb (fun k => nonnegb (div (of_int k) f1000)
                    && ((k =? 0) || bigb (-9) (div (of_int k) f1000)))
          (range 100) = true.
Proof. vm_compute. reflexivity. Qed.

Lemma float_of_int_small k : 0 <= k < 255 -> float_of_int k = Ok (of_int k).
Proof.
  intros Hk. unfold float_of_int.
  pose proof (forallb_range _ _ small_int_table k Hk) as H. cbv beta in H.
  destruct (is_inf (of_int k)); [discriminate | reflexivity].
Qed.

Lemma char_term_nonneg c : nonneg (char_term c).
Proof.
  apply nonnegb_nonneg. unfold char_term.
  apply (forallb_range _ _ char_term_table (c mod 255)).
  apply Z.mod_pos_bound. lia.
Qed.

Lemma hash_term_nonneg h j : nonneg (hash_term h j).
Proof.
  apply nonnegb_nonneg. unfold hash_term.
  pose proof (forallb_range _ _ hash_term_table ((j + h) mod 100)
                ltac:(apply Z.mod_pos_bound; lia)) as H.
  cbv beta in H. apply andb_prop in H. apply H.
Qed.

Lemma hash_term_big h j :
  (j + h) mod 100 <> 0 -> big_sign false (-9) (hash_term h j).
Proof.
  intros Hne. apply bigb_big. unfold hash_term.
  pose proof (forallb_range _ _ hash_term_table ((j + h) mod 100)
                ltac:(apply Z.mod_pos_bound; lia)) as H.
  cbv beta in H. apply andb_prop in H. destruct H as [_ H].
  apply orb_prop in H. destruct H as [H|H]; [|exact H].
  apply Z.eqb_eq in H. contradiction.
Qed.

Lemma py_mod_ok a b : b <> 0 -> py_mod a b = Ok (a mod b).
Proof.
  intros Hb. unfold py_mod.
  destruct (Z.eqb_spec b 0); [contradiction | reflexivity].
Qed.

Lemma truediv_ok x y : is_zero y = false -> truediv x y = Ok (div x y).
Proof. intros H. unfold truediv. rewrite H. reflexivity. Qed.

Lemma int_truediv_small k y :
  0 <= k < 255 -> is_zero y = false -> int_truediv k y = Ok (div (of_int k) y).
Proof.
  intros Hk Hy. unfold int_truediv. rewrite float_of_int_small by assumption.
  rewrite bind_ok. apply truediv_ok, Hy.
Qed.

Lemma norm_index_ok {A : Type} (xs : list A) (j : nat) :
  (j < length xs)%nat -> norm_index xs (Z.of_nat j) = Ok j.
Proof.
  intros Hj. unfold norm_index.
  destruct (Z.ltb_spec (Z.of_nat j) 0); [lia|].
  destruct (Z.leb_spec 0 (Z.of_nat j)); [|lia].
  destruct (Z.ltb_spec (Z.of_nat j) (Z.of_nat (length xs))); [|lia].
  cbn [andb]. rewrite Nat2Z.id. reflexivity.
Qed.

Lemma getitem_ok xs j x :
  nth_error xs j = Some x -> getitem xs (Z.of_nat j) = Ok x.
Proof.
  intros H. unfold getitem. rewrite norm_index_ok.
  - rewrite bind_ok, H. reflexivity.
  - apply nth_error_Some. congruence.
Qed.

Lemma setitem_ok xs j x :
  (j < length xs)%nat -> setitem xs (Z.of_nat j) x = Ok (list_set xs j x).
Proof.
  intros H. unfold setitem. rewrite norm_index_ok by assumption. reflexivity.
Qed.

(** An update in place is the pointwise description of it. *)
Lemma add_at_from_cons start k t y v :
  add_at_from start k t (y :: v)
  = (if (start =? k)%nat then add y t else y) :: add_at_from (S start) k t v.
Proof. reflexivity. Qed.

Lemma add_at_from_above start k t v :
  (k < start)%nat -> add_at_from start k t v = v.
Proof.
  revert start. induction v as [|y v IH]; intros start Hk; [reflexivity|].
  rewrite add_at_from_cons, IH by lia.
  destruct (Nat.eqb_spec start k); [lia | reflexivity].
Qed.

Lemma list_set_add_at start v j x t :
  nth_error v j = Some x ->
  list_set v j (add x t) = add_at_from start (start + j) t v.
Proof.
  revert start j. induction v as [|y v IH]; intros start j H.
  - destruct j; discriminate.
  - rewrite add_at_from_cons. destruct j as [|j]; cbn [nth_error list_set] in *.
    + injection H as ->. rewrite Nat.add_0_r, Nat.eqb_refl.
      rewrite add_at_from_above by lia. reflexivity.
    + destruct (Nat.eqb_spec start (start + S j)); [lia|].
      rewrite (IH (S start) j H). f_equal. f_equal. lia.
Qed.

Lemma add_at_from_length start k t v :
  length (add_at_from start k t v) = length v.
Proof.
  unfold add_at_from, enumerate_from.
  rewrite length_map, length_combine, length_seq. lia.
Qed.

(** ** The generator: the loops as pure functions *)

Lemma f255_nonzero : is_zero f255 = false.
Proof. reflexivity. Qed.

Lemma f1000_nonzero : is_zero f1000 = false.
Proof. reflexivity. Qed.

Lemma char_step_ok d v i c :
  1 <= d -> length v = Z.to_nat d ->
  char_step d v (i, c)
  = Ok (add_at (Z.to_nat (Z.of_nat i mod d)) (char_term c) v).
Proof.
  intros Hd Hlen. unfold char_step.
  rewrite py_mod_ok by lia. rewrite bind_ok.
  rewrite py_mod_ok by lia. rewrite bind_ok.
  rewrite int_truediv_small
    by (try apply Z.mod_pos_bound; try apply f255_nonzero; lia).
  pose proof (Z.mod_pos_bound (Z.of_nat i) d ltac:(lia)) as Hidx.
  generalize dependent (Z.of_nat i mod d). intros idx Hidx.
  assert (Hj : (Z.to_nat idx < length v)%nat) by lia.
  rewrite <- (Z2Nat.id idx) by lia. rewrite Nat2Z.id.
  generalize dependent (Z.to_nat idx). clear idx Hidx. intros j Hj.
  destruct (nth_error v j) as [x|] eqn:Hx;
    [|apply nth_error_None in Hx; lia].
  rewrite (getitem_ok _ _ _ Hx), !bind_ok, setitem_ok by assumption.
  f_equal. apply (list_set_add_at 0 v j x). exact Hx.
Qed.

Lemma char_loop_ok text d :
  1 <= d ->
  foldM (char_step d) (enumerate text) (repeat zero (Z.to_nat d))
  = Ok (spec_accumulate text d)
  /\ length (spec_accumulate text d) = Z.to_nat d.
Proof.
  intros Hd. unfold spec_accumulate.
  apply (foldM_fold_left (fun v => length v = Z.to_nat d)).
  - intros v [i c] Hv. cbn [fst snd]. split.
    + apply char_step_ok; assumption.
    + unfold add_at. rewrite add_at_from_length. exact Hv.
  - apply repeat_length.
Qed.

Lemma spec_hashed_from_cons start h y v :
  spec_hashed_from start h (y :: v)
  = add y (hash_term h (Z.of_nat start)) :: spec_hashed_from (S start) h v.
Proof. reflexivity. Qed.

Lemma list_set_app {A : Type} (pre : list A) y suf z :
  list_set (pre ++ y :: suf) (length pre) z = pre ++ z :: suf.
Proof. induction pre as [|p pre IH]; cbn; [reflexivity | now rewrite IH]. Qed.

Lemma nth_error_middle {A : Type} (pre : list A) y suf :
  nth_error (pre ++ y :: suf) (length pre) = Some y.
Proof. induction pre as [|p pre IH]; cbn; [reflexivity | exact IH]. Qed.

Lemma hash_step_ok h pre y suf :
  hash_step h (pre ++ y :: suf) (Z.of_nat (length pre))
  = Ok (pre ++ add y (hash_term h (Z.of_nat (length pre))) :: suf).
Proof.
  unfold hash_step.
  rewrite (getitem_ok _ _ _ (nth_error_middle pre y suf)), bind_ok.
  rewrite py_mod_ok by lia. rewrite bind_ok.
  pose proof (Z.mod_pos_bound (Z.of_nat (length pre) + h) 100 ltac:(lia)).
  rewrite int_truediv_small by (try apply f1000_nonzero; lia).
  rewrite bind_ok, setitem_ok by (rewrite length_app; cbn; lia).
  rewrite list_set_app. reflexivity.
Qed.

Lemma hash_loop_from h suf : forall pre,
  foldM (hash_step h) (map Z.of_nat (seq (length pre) (length suf)))
        (pre ++ suf)
  = Ok (pre ++ spec_hashed_from (length pre) h suf).
Proof.
  induction suf as [|y suf IH]; intros pre.
  - reflexivity.
  - cbn [length seq map foldM]. rewrite hash_step_ok, bind_ok.
    rewrite spec_hashed_from_cons.
    replace (pre ++ add y (hash_term h (Z.of_nat (length pre))) :: suf)
      with ((pre ++ [add y (hash_term h (Z.of_nat (length pre)))]) ++ suf)
      by (rewrite <- app_assoc; reflexivity).
    replace (S (length pre))
      with (length (pre ++ [add y (hash_term h (Z.of_nat (length pre)))]))
      by (rewrite length_app; cbn; lia).
    rewrite IH, <- app_assoc. reflexivity.
Qed.

Lemma hash_loop_ok h d v :
  length v = Z.to_nat d ->
  foldM (hash_step h) (range d) v = Ok (spec_hashed_from 0 h v).
Proof.
  intros Hlen. unfold range. rewrite <- Hlen. exact (hash_loop_from h v []).
Qed.

Lemma sum_codepoints text a :
  fold_left Z.add text a = a + codepoint_sum text.
Proof.
  revert a. induction text as [|c text IH]; intros a; cbn.
  - lia.
  - rewrite IH. unfold codepoint_sum. lia.
Qed.

(** The sum of squares is never negative: [math.sqrt] never raises. *)
Lemma sum_sign l : forall acc,
  nonneg_or_nan acc -> Forall nonneg_or_nan l ->
  nonneg_or_nan (fold_left add l acc).
Proof.
  induction l as [|x l IH]; intros acc Ha Hl; cbn [fold_left]; [exact Ha|].
  inversion Hl; subst. apply IH; [apply add_sign|]; assumption.
Qed.

Lemma squares_sign v : Forall nonneg_or_nan (map (fun x => mul x x) v).
Proof.
  induction v as [|x v IH]; cbn [map]; constructor;
    [apply mul_self_sign | exact IH].
Qed.

Lemma calculate_norm_ok v : calculate_norm v = Ok (l2_norm v).
Proof.
  unfold calculate_norm, math_sqrt, py_sum, l2_norm. rewrite of_int_zero.
  rewrite ltb_sign; [reflexivity|].
  apply sum_sign; [exact I | apply squares_sign].
Qed.

Lemma ltb_zero_nonzero x : ltb zero x = true -> is_zero x = false.
Proof. destruct x as [s|s| |s m e]; [discriminate|reflexivity..]. Qed.

Lemma mapM_truediv n v :
  is_zero n = false ->
  mapM (fun x => truediv x n) v = Ok (map (fun x => div x n) v).
Proof.
  intros Hn. induction v as [|x v IH]; cbn [mapM map]; [reflexivity|].
  rewrite truediv_ok, bind_ok, IH by assumption. reflexivity.
Qed.

(** For a dimension of at least one, the script computes what the
    specification describes and raises nothing. *)
Lemma generate_mock_embedding_ok text d :
  1 <= d -> generate_mock_embedding text d = Ok (generateMock_spec text d).
Proof.
  intros Hd. unfold generate_mock_embedding.
  destruct (char_loop_ok text d Hd) as [-> Hlen]. rewrite bind_ok.
  rewrite sum_codepoints, Z.add_0_l.
  rewrite (hash_loop_ok _ d _ Hlen), bind_ok.
  fold (spec_unnormalized text d).
  rewrite calculate_norm_ok, bind_ok.
  unfold generateMock_spec, spec_normalize.
  destruct (ltb zero (l2_norm (spec_unnormalized text d))) eqn:Hn;
    [|reflexivity].
  apply mapM_truediv, ltb_zero_nonzero, Hn.
Qed.

(** ** The validator: its issue list, check by check *)

Lemma finiteness_step_app issues iv :
  finiteness_step issues iv = issues ++ finiteness_issues_at iv.
Proof.
  destruct iv as [i val]. unfold finiteness_step, finiteness_issues_at.
  cbn [fst snd]. destruct (is_nan val), (is_inf val); cbn [app];
    rewrite <- ?app_assoc, ?app_nil_r; reflexivity.
Qed.

Lemma finiteness_loop l : forall issues,
  fold_left finiteness_step l issues
  = issues ++ flat_map finiteness_issues_at l.
Proof.
  induction l as [|iv l IH]; intros issues; cbn [fold_left flat_map].
  - now rewrite app_nil_r.
  - rewrite IH, finiteness_step_app, <- app_assoc. reflexivity.
Qed.

Lemma if_app (b : bool) (issues : list string) (s : string) :
  (if b then issues ++ [s] else issues) = issues ++ (if b then [s] else []).
Proof. destruct b; [reflexivity | now rewrite app_nil_r]. Qed.

Section ValidatorFacts.

Variable fmt6 : float -> string.

Lemma validate_embedding_cons x xs text :
  validate_embedding fmt6 (x :: xs) text
  = Ok ((length (issues_of fmt6 (x :: xs) (fold_left min_step xs x)
                           (fold_left max_step xs x)) =? 0)%nat,
        issues_of fmt6 (x :: xs) (fold_left min_step xs x)
                  (fold_left max_step xs x)).
Proof.
  unfold validate_embedding. rewrite calculate_norm_ok, bind_ok.
  cbn [py_min py_max]. rewrite !bind_ok.
  rewrite finiteness_loop, !if_app. cbn [app].
  unfold issues_of, dimension_issues, finiteness_issues, norm_issues,
    range_issues, zero_issues, near_zero.
  rewrite <- !app_assoc. reflexivity.
Qed.

Lemma validate_embedding_nil text :
  validate_embedding fmt6 [] text = Raise ValueError.
Proof. reflexivity. Qed.

End ValidatorFacts.

(** ** The issue strings are pairwise distinct *)

Lemma append_inv_head (p a b : string) :
  (p ++ a)%string = (p ++ b)%string -> a = b.
Proof.
  induction p as [|c p IH]; cbn [append]; intros H; [exact H|].
  injection H as H. exact (IH H).
Qed.

Lemma str_of_nat_inj i j : str_of_nat i = str_of_nat j -> i = j.
Proof.
  unfold str_of_nat. intros H. apply Unsigned.to_uint_inj.
  assert (Hs : Some (Nat.to_uint i) = Some (Nat.to_uint j))
    by (rewrite <- !NilEmpty.usu, H; reflexivity).
  now injection Hs.
Qed.

Lemma nan_issue_inj i j : nan_issue i = nan_issue j -> i = j.
Proof. intros H. apply str_of_nat_inj, (append_inv_head _ _ _ H). Qed.

Lemma inf_issue_inj i j : inf_issue i = inf_issue j -> i = j.
Proof. intros H. apply str_of_nat_inj, (append_inv_head _ _ _ H). Qed.

Lemma prefix2_dimension n : prefix2 (dimension_issue n) = Some ("E", "x")%char.
Proof. reflexivity. Qed.

Lemma prefix2_nan i : prefix2 (nan_issue i) = Some ("N", "a")%char.
Proof. reflexivity. Qed.

Lemma prefix2_inf i : prefix2 (inf_issue i) = Some ("I", "n")%char.
Proof. reflexivity. Qed.

Lemma prefix2_norm fmt6 n : prefix2 (norm_issue fmt6 n) = Some ("N", "o")%char.
Proof. reflexivity. Qed.

Lemma prefix2_range fmt6 lo hi :
  prefix2 (range_issue fmt6 lo hi) = Some ("V", "a")%char.
Proof. reflexivity. Qed.

Lemma prefix2_zero : prefix2 zero_issue = Some ("A", "l")%char.
Proof. reflexivity. Qed.

(** The checks an issue with a given prefix can come from. *)
Lemma prefix2_dimension_issues v s :
  In s (dimension_issues v) -> prefix2 s = Some ("E", "x")%char.
Proof.
  unfold dimension_issues. destruct (negb _); cbn [In]; intros H;
    [destruct H as [<-|[]] | destruct H].
  apply prefix2_dimension.
Qed.

Lemma prefix2_finiteness_at iv s :
  In s (finiteness_issues_at iv) ->
  prefix2 s = Some ("N", "a")%char \/ prefix2 s = Some ("I", "n")%char.
Proof.
  unfold finiteness_issues_at. intros H. apply in_app_or in H.
  destruct H as [H|H];
    [destruct (is_nan (snd iv)) | destruct (is_inf (snd iv))];
    cbn [In] in H; try contradiction; destruct H as [<-|[]]; auto.
Qed.

Lemma prefix2_finiteness_issues v s :
  In s (finiteness_issues v) ->
  prefix2 s = Some ("N", "a")%char \/ prefix2 s = Some ("I", "n")%char.
Proof.
  unfold finiteness_issues. intros H. apply in_flat_map in H.
  destruct H as (iv & _ & H). exact (prefix2_finiteness_at iv s H).
Qed.

Lemma prefix2_norm_issues fmt6 n s :
  In s (norm_issues fmt6 n) -> prefix2 s = Some ("N", "o")%char.
Proof.
  unfold norm_issues. destruct (_ || _); cbn [In]; intros H;
    [destruct H as [<-|[]] | destruct H].
  apply prefix2_norm.
Qed.

Lemma prefix2_range_issues fmt6 lo hi s :
  In s (range_issues fmt6 lo hi) -> prefix2 s = Some ("V", "a")%char.
Proof.
  unfold range_issues. destruct (_ || _); cbn [In]; intros H;
    [destruct H as [<-|[]] | destruct H].
  apply prefix2_range.
Qed.

Lemma prefix2_zero_issues v s :
  In s (zero_issues v) -> prefix2 s = Some ("A", "l")%char.
Proof.
  unfold zero_issues. destruct (forallb _ _); cbn [In]; intros H;
    [destruct H as [<-|[]] | destruct H].
  apply prefix2_zero.
Qed.

(** Membership in the issue list, check by check. *)
Lemma in_issues_of fmt6 v lo hi s :
  In s (issues_of fmt6 v lo hi) <->
  In s (dimension_issues v) \/ In s (finiteness_issues v)
  \/ In s (norm_issues fmt6 (l2_norm v)) \/ In s (range_issues fmt6 lo hi)
  \/ In s (zero_issues v).
Proof. unfold issues_of. rewrite !in_app_iff. tauto. Qed.

Lemma in_norm_issues fmt6 v lo hi n :
  In (norm_issue fmt6 n) (issues_of fmt6 v lo hi) ->
  In (norm_issue fmt6 n) (norm_issues fmt6 (l2_norm v)).
Proof.
  intros H. apply in_issues_of in H.
  destruct H as [H|[H|[H|[H|H]]]]; [| |exact H| |].
  - apply prefix2_dimension_issues in H. rewrite prefix2_norm in H.
    discriminate.
  - apply prefix2_finiteness_issues in H. rewrite prefix2_norm in H.
    destruct H; discriminate.
  - apply prefix2_range_issues in H. rewrite prefix2_norm in H. discriminate.
  - apply prefix2_zero_issues in H. rewrite prefix2_norm in H. discriminate.
Qed.

Lemma in_range_issues fmt6 v lo hi a b :
  In (range_issue fmt6 a b) (issues_of fmt6 v lo hi) ->
  In (range_issue fmt6 a b) (range_issues fmt6 lo hi).
Proof.
  intros H. apply in_issues_of in H.
  destruct H as [H|[H|[H|[H|H]]]]; [| | |exact H|].
  - apply prefix2_dimension_issues in H. rewrite prefix2_range in H.
    discriminate.
  - apply prefix2_finiteness_issues in H. rewrite prefix2_range in H.
    destruct H; discriminate.
  - apply prefix2_norm_issues in H. rewrite prefix2_range in H. discriminate.
  - apply prefix2_zero_issues in H. rewrite prefix2_range in H. discriminate.
Qed.

Lemma in_zero_issues fmt6 v lo hi :
  In zero_issue (issues_of fmt6 v lo hi) -> In zero_issue (zero_issues v).
Proof.
  intros H. apply in_issues_of in H.
  destruct H as [H|[H|[H|[H|H]]]]; [| | | |exact H].
  - apply prefix2_dimension_issues in H. rewrite prefix2_zero in H.
    discriminate.
  - apply prefix2_finiteness_issues in H. rewrite prefix2_zero in H.
    destruct H; discriminate.
  - apply prefix2_norm_issues in H. rewrite prefix2_zero in H. discriminate.
  - apply prefix2_range_issues in H. rewrite prefix2_zero in H. discriminate.
Qed.

Lemma issues_nonempty_verdict (issues : list string) s :
  In s issues -> (length issues =? 0)%nat = false.
Proof. destruct issues; [intros [] | reflexivity]. Qed.

(** ** [min] and [max] *)

Lemma fold_min_in xs : forall m, In (fold_left min_step xs m) (m :: xs).
Proof.
  induction xs as [|y xs IH]; intros m; cbn [fold_left]; [left; reflexivity|].
  destruct (IH (min_step m y)) as [H|H]; [|right; right; exact H].
  unfold min_step in H at 1. destruct (ltb y m);
    [right; left | left]; exact H.
Qed.

Lemma fold_max_in xs : forall m, In (fold_left max_step xs m) (m :: xs).
Proof.
  induction xs as [|y xs IH]; intros m; cbn [fold_left]; [left; reflexivity|].
  destruct (IH (max_step m y)) as [H|H]; [|right; right; exact H].
  unfold max_step in H at 1. destruct (ltb m y);
    [right; left | left]; exact H.
Qed.

(** Without NaN, [min] returns a least element and [max] a greatest one. *)
Lemma fold_min_least xs : forall m,
  is_nan m = false -> Forall (fun x => is_nan x = false) xs ->
  let r := fold_left min_step xs m in
  is_nan r = false /\ leb r m = true /\ Forall (fun x => leb r x = true) xs.
Proof.
  induction xs as [|y xs IH]; intros m Hm Hxs; cbn [fold_left].
  - repeat split; [exact Hm | apply leb_refl, Hm | constructor].
  - inversion Hxs as [|? ? Hy Hxs']; subst.
    assert (Hstep : is_nan (min_step m y) = false
                    /\ leb (min_step m y) m = true
                    /\ leb (min_step m y) y = true).
    { unfold min_step. destruct (ltb y m) eqn:Hlt.
      - repeat split; [exact Hy | apply ltb_leb, Hlt | apply leb_refl, Hy].
      - repeat split; [exact Hm | apply leb_refl, Hm
                      | apply not_ltb_leb; assumption]. }
    destruct Hstep as (Hn & Hlm & Hly).
    destruct (IH (min_step m y) Hn Hxs') as (Hr & Hrm & Hall).
    repeat split; [exact Hr | eapply leb_trans; eauto|].
    constructor; [eapply leb_trans; eauto | exact Hall].
Qed.

Lemma fold_max_greatest xs : forall m,
  is_nan m = false -> Forall (fun x => is_nan x = false) xs ->
  let r := fold_left max_step xs m in
  is_nan r = false /\ leb m r = true /\ Forall (fun x => leb x r = true) xs.
Proof.
  induction xs as [|y xs IH]; intros m Hm Hxs; cbn [fold_left].
  - repeat split; [exact Hm | apply leb_refl, Hm | constructor].
  - inversion Hxs as [|? ? Hy Hxs']; subst.
    assert (Hstep : is_nan (max_step m y) = false
                    /\ leb m (max_step m y) = true
                    /\ leb y (max_step m y) = true).
    { unfold max_step. destruct (ltb m y) eqn:Hlt.
      - repeat split; [exact Hy | apply ltb_leb, Hlt | apply leb_refl, Hy].
      - repeat split; [exact Hm | apply leb_refl, Hm
                      | apply not_ltb_leb; assumption]. }
    destruct Hstep as (Hn & Hlm & Hly).
    destruct (IH (max_step m y) Hn Hxs') as (Hr & Hrm & Hall).
    repeat split; [exact Hr | eapply leb_trans; eauto|].
    constructor; [eapply leb_trans; eauto | exact Hall].
Qed.

Lemma leb_not_nan a b : leb a b = true -> is_nan a = false /\ is_nan b = false.
Proof. intros H. apply leb_key in H. tauto. Qed.

(** A vector with a least or a greatest element holds no NaN. *)
Lemma minimum_no_nan m v :
  is_minimum m v -> Forall (fun x => is_nan x = false) v.
Proof.
  intros [_ H]. apply Forall_forall. intros x Hx.
  exact (proj2 (leb_not_nan _ _ (H x Hx))).
Qed.

Lemma maximum_no_nan m v :
  is_maximum m v -> Forall (fun x => is_nan x = false) v.
Proof.
  intros [_ H]. apply Forall_forall. intros x Hx.
  exact (proj1 (leb_not_nan _ _ (H x Hx))).
Qed.

Lemma py_min_minimum x xs :
  Forall (fun y => is_nan y = false) (x :: xs) ->
  is_minimum (fold_left min_step xs x) (x :: xs).
Proof.
  intros Hall. inversion Hall as [|? ? Hx Hxs]; subst.
  destruct (fold_min_least xs x Hx Hxs) as (_ & Hrx & Hr).
  split; [apply fold_min_in|].
  intros y [<-|Hy]; [exact Hrx|].
  rewrite Forall_forall in Hr. exact (Hr y Hy).
Qed.

Lemma py_max_maximum x xs :
  Forall (fun y => is_nan y = false) (x :: xs) ->
  is_maximum (fold_left max_step xs x) (x :: xs).
Proof.
  intros Hall. inversion Hall as [|? ? Hx Hxs]; subst.
  destruct (fold_max_greatest xs x Hx Hxs) as (_ & Hrx & Hr).
  split; [apply fold_max_in|].
  intros y [<-|Hy]; [exact Hrx|].
  rewrite Forall_forall in Hr. exact (Hr y Hy).
Qed.

(** *** [min], [max] and NaN *)

Lemma fold_min_from_nan xs : fold_left min_step xs S754_nan = S754_nan.
Proof.
  induction xs as [|y xs IH]; cbn [fold_left]; [reflexivity|].
  unfold min_step at 2. rewrite ltb_nan_r. exact IH.
Qed.

Lemma fold_max_from_nan xs : fold_left max_step xs S754_nan = S754_nan.
Proof.
  induction xs as [|y xs IH]; cbn [fold_left]; [reflexivity|].
  unfold max_step at 2. rewrite ltb_nan_l. exact IH.
Qed.

(** From a first element that is a number, [min] skips the NaN it meets and
    ends at or below every number of the list. *)
Lemma fold_min_skips_nan xs : forall m,
  is_nan m = false ->
  let r := fold_left min_step xs m in
  is_nan r = false /\ leb r m = true
  /\ forall y, In y xs -> is_nan y = false -> leb r y = true.
Proof.
  induction xs as [|y xs IH]; intros m Hm; cbn [fold_left].
  - repeat split; [exact Hm | apply leb_refl, Hm | intros ? []].
  - assert (Hstep : is_nan (min_step m y) = false
                    /\ leb (min_step m y) m = true
                    /\ (is_nan y = false -> leb (min_step m y) y = true)).
    { unfold min_step. destruct (ltb y m) eqn:Hlt.
      - apply ltb_key in Hlt. destruct Hlt as (Hy & _ & Hk).
        repeat split; [exact Hy | | intros _; apply leb_refl, Hy].
        apply leb_key. auto.
      - repeat split; [exact Hm | apply leb_refl, Hm|].
        intros Hy. apply not_ltb_leb; assumption. }
    destruct Hstep as (Hn & Hlm & Hly).
    destruct (IH (min_step m y) Hn) as (Hr & Hrm & Hall).
    repeat split; [exact Hr | eapply leb_trans; eauto|].
    intros z [<-|Hz] Hzn; [eapply leb_trans; eauto | apply Hall; assumption].
Qed.

Lemma fold_max_skips_nan xs : forall m,
  is_nan m = false ->
  let r := fold_left max_step xs m in
  is_nan r = false /\ leb m r = true
  /\ forall y, In y xs -> is_nan y = false -> leb y r = true.
Proof.
  induction xs as [|y xs IH]; intros m Hm; cbn [fold_left].
  - repeat split; [exact Hm | apply leb_refl, Hm | intros ? []].
  - assert (Hstep : is_nan (max_step m y) = false
                    /\ leb m (max_step m y) = true
                    /\ (is_nan y = false -> leb y (max_step m y) = true)).
    { unfold max_step. destruct (ltb m y) eqn:Hlt.
      - apply ltb_key in Hlt. destruct Hlt as (_ & Hy & Hk).
        repeat split; [exact Hy | | intros _; apply leb_refl, Hy].
        apply leb_key. auto.
      - repeat split; [exact Hm | apply leb_refl, Hm|].
        intros Hy. apply not_ltb_leb; assumption. }
    destruct Hstep as (Hn & Hlm & Hly).
    destruct (IH (max_step m y) Hn) as (Hr & Hrm & Hall).
    repeat split; [exact Hr | eapply leb_trans; eauto|].
    intros z [<-|Hz] Hzn; [eapply leb_trans; eauto | apply Hall; assumption].
Qed.

Lemma ltb_not_nan a b : ltb a b = true -> is_nan a = false /\ is_nan b = false.
Proof. intros H. apply ltb_key in H. tauto. Qed.


(** ** NaN in a sum of squares *)

Lemma add_nan_r x : add x S754_nan = S754_nan.
Proof. destruct x; reflexivity. Qed.

Lemma sum_from_nan l : fold_left add l S754_nan = S754_nan.
Proof. induction l as [|x l IH]; [reflexivity | exact IH]. Qed.

Lemma sum_with_nan l : forall acc,
  In S754_nan l -> fold_left add l acc = S754_nan.
Proof.
  induction l as [|x l IH]; intros acc H; [destruct H|].
  cbn [fold_left]. destruct H as [->|H].
  - rewrite add_nan_r. apply sum_from_nan.
  - apply IH, H.
Qed.

Lemma is_nan_eq x : is_nan x = true -> x = S754_nan.
Proof. destruct x; [discriminate..|reflexivity|discriminate]. Qed.

Lemma l2_norm_nan v : has_nan v -> l2_norm v = S754_nan.
Proof.
  intros (x & Hin & Hx). apply is_nan_eq in Hx. subst x.
  unfold l2_norm. rewrite sum_with_nan; [reflexivity|].
  apply in_map_iff. exists S754_nan. split; [reflexivity | exact Hin].
Qed.

(** ** Counting the finiteness issues *)

Lemma count_occ_other_prefix (l : list string) (t : string) :
  (forall s, In s l -> prefix2 s <> prefix2 t) ->
  count_occ string_dec l t = 0%nat.
Proof.
  intros H. apply count_occ_not_In. intros Hin. exact (H t Hin eq_refl).
Qed.

Lemma count_nan_at iv i :
  count_occ string_dec (finiteness_issues_at iv) (nan_issue i)
  = if is_nan (snd iv) && (fst iv =? i)%nat then 1%nat else 0%nat.
Proof.
  destruct iv as [j x]. unfold finiteness_issues_at. cbn [fst snd].
  rewrite count_occ_app.
  assert (Hinf : count_occ string_dec
                   (if is_inf x then [inf_issue j] else []) (nan_issue i)
                 = 0%nat).
  { apply count_occ_other_prefix. intros s Hs.
    destruct (is_inf x); cbn [In] in Hs; [|contradiction].
    destruct Hs as [<-|[]]. rewrite prefix2_inf, prefix2_nan. discriminate. }
  rewrite Hinf, Nat.add_0_r.
  destruct (is_nan x); cbn [andb count_occ]; [|reflexivity].
  destruct (string_dec (nan_issue j) (nan_issue i)) as [He|Hne];
    destruct (Nat.eqb_spec j i) as [Hji|Hji]; try reflexivity.
  - apply nan_issue_inj in He. contradiction.
  - subst. contradiction.
Qed.

Lemma count_inf_at iv i :
  count_occ string_dec (finiteness_issues_at iv) (inf_issue i)
  = if is_inf (snd iv) && (fst iv =? i)%nat then 1%nat else 0%nat.
Proof.
  destruct iv as [j x]. unfold finiteness_issues_at. cbn [fst snd].
  rewrite count_occ_app.
  assert (Hnan : count_occ string_dec
                   (if is_nan x then [nan_issue j] else []) (inf_issue i)
                 = 0%nat).
  { apply count_occ_other_prefix. intros s Hs.
    destruct (is_nan x); cbn [In] in Hs; [|contradiction].
    destruct Hs as [<-|[]]. rewrite prefix2_inf, prefix2_nan. discriminate. }
  rewrite Hnan, Nat.add_0_l.
  destruct (is_inf x); cbn [andb count_occ]; [|reflexivity].
  destruct (string_dec (inf_issue j) (inf_issue i)) as [He|Hne];
    destruct (Nat.eqb_spec j i) as [Hji|Hji]; try reflexivity.
  - apply inf_issue_inj in He. contradiction.
  - subst. contradiction.
Qed.

Lemma count_flat_from (p : float -> bool) (t : nat -> string) v i :
  (forall iv, count_occ string_dec (finiteness_issues_at iv) (t i)
              = if p (snd iv) && (fst iv =? i)%nat then 1%nat else 0%nat) ->
  forall s,
    count_occ string_dec
      (flat_map finiteness_issues_at (enumerate_from s v)) (t i)
    = if (s <=? i)%nat then one_if p v (i - s) else 0%nat.
Proof.
  intros Hat. induction v as [|y v IH]; intros s.
  - cbn. unfold one_if.
    destruct (i - s)%nat; destruct (s <=? i)%nat; reflexivity.
  - change (enumerate_from s (y :: v)) with ((s, y) :: enumerate_from (S s) v).
    cbn [flat_map]. rewrite count_occ_app, Hat, IH. cbn [fst snd].
    unfold one_if.
    destruct (Nat.leb_spec s i) as [Hle|Hgt].
    + destruct (Nat.eqb_spec s i) as [->|Hne].
      * rewrite Nat.sub_diag. cbn [nth_error].
        destruct (Nat.leb_spec (S i) i); [lia|].
        rewrite andb_true_r. destruct (p y); reflexivity.
      * rewrite andb_false_r.
        destruct (Nat.leb_spec (S s) i); [|lia].
        replace (i - s)%nat with (S (i - S s)) by lia. reflexivity.
    + destruct (Nat.eqb_spec s i); [lia|]. rewrite andb_false_r.
      destruct (Nat.leb_spec (S s) i); [lia | reflexivity].
Qed.

Lemma count_nan_finiteness v i :
  count_occ string_dec (finiteness_issues v) (nan_issue i) = one_if is_nan v i.
Proof.
  unfold finiteness_issues, enumerate.
  rewrite (count_flat_from is_nan nan_issue v i (fun iv => count_nan_at iv i)).
  cbn [Nat.leb]. now rewrite Nat.sub_0_r.
Qed.

Lemma count_inf_finiteness v i :
  count_occ string_dec (finiteness_issues v) (inf_issue i) = one_if is_inf v i.
Proof.
  unfold finiteness_issues, enumerate.
  rewrite (count_flat_from is_inf inf_issue v i (fun iv => count_inf_at iv i)).
  cbn [Nat.leb]. now rewrite Nat.sub_0_r.
Qed.

(** In the whole issue list, only the finiteness loop writes such issues. *)
Lemma count_finiteness_issues fmt6 v lo hi (t : string) :
  prefix2 t = Some ("N", "a")%char \/ prefix2 t = Some ("I", "n")%char ->
  count_occ string_dec (issues_of fmt6 v lo hi) t
  = count_occ string_dec (finiteness_issues v) t.
Proof.
  intros Ht. unfold issues_of. rewrite !count_occ_app.
  rewrite (count_occ_other_prefix (dimension_issues v)),
    (count_occ_other_prefix (norm_issues fmt6 (l2_norm v))),
    (count_occ_other_prefix (range_issues fmt6 lo hi)),
    (count_occ_other_prefix (zero_issues v)); [lia| | | |].
  - intros s Hs. rewrite (prefix2_zero_issues _ _ Hs).
    destruct Ht as [-> | ->]; discriminate.
  - intros s Hs. rewrite (prefix2_range_issues _ _ _ _ Hs).
    destruct Ht as [-> | ->]; discriminate.
  - intros s Hs. rewrite (prefix2_norm_issues _ _ _ Hs).
    destruct Ht as [-> | ->]; discriminate.
  - intros s Hs. rewrite (prefix2_dimension_issues _ _ Hs).
    destruct Ht as [-> | ->]; discriminate.
Qed.

(** ** The norm of the generated vector *)

Lemma add_at_from_nonneg start k t v :
  nonneg t -> Forall nonneg v -> Forall nonneg (add_at_from start k t v).
Proof.
  intros Ht. revert start. induction v as [|y v IH]; intros start Hv.
  - constructor.
  - inversion Hv; subst. rewrite add_at_from_cons. constructor.
    + destruct (start =? k)%nat; [apply add_nonneg|]; assumption.
    + apply IH. assumption.
Qed.

Lemma repeat_zero_nonneg n : Forall nonneg (repeat zero n).
Proof. induction n; cbn; constructor; [exact I | assumption]. Qed.

Lemma spec_accumulate_nonneg text d : Forall nonneg (spec_accumulate text d).
Proof.
  unfold spec_accumulate. generalize (repeat_zero_nonneg (Z.to_nat d)).
  generalize (repeat zero (Z.to_nat d)).
  induction (enumerate text) as [|ic l IH]; intros v Hv; cbn [fold_left].
  - exact Hv.
  - apply IH. apply add_at_from_nonneg; [apply char_term_nonneg | exact Hv].
Qed.

Lemma spec_hashed_nonneg h v : forall start,
  Forall nonneg v -> Forall nonneg (spec_hashed_from start h v).
Proof.
  induction v as [|y v IH]; intros start Hv; [constructor|].
  inversion Hv; subst. rewrite spec_hashed_from_cons. constructor.
  - apply add_nonneg; [assumption | apply hash_term_nonneg].
  - apply IH. assumption.
Qed.

(** Of two consecutive indices, one has a nonzero hash term. *)
Lemma hash_index_nonzero h :
  (0 + h) mod 100 <> 0 \/ (1 + h) mod 100 <> 0.
Proof.
  destruct (Z.eq_dec ((0 + h) mod 100) 0) as [H0|H0]; [right | left; exact H0].
  intros H1. rewrite Z.add_0_l in H0.
  pose proof (Z.div_mod h 100 ltac:(lia)) as Eh.
  pose proof (Z.div_mod (1 + h) 100 ltac:(lia)) as E1.
  rewrite H0 in Eh. rewrite H1 in E1. lia.
Qed.

Lemma spec_hashed_big h v :
  Forall nonneg v -> (2 <= length v)%nat ->
  Exists (big_sign false (-9)) (spec_hashed_from 0 h v).
Proof.
  intros Hv Hlen. destruct v as [|y0 [|y1 v]]; cbn [length] in Hlen; try lia.
  inversion Hv as [|? ? Hy0 Hv']; subst. inversion Hv' as [|? ? Hy1 _]; subst.
  rewrite !spec_hashed_from_cons.
  destruct (hash_index_nonzero h) as [H|H].
  - apply Exists_cons_hd. apply add_big_r; [exact Hy0|].
    apply hash_term_big. exact H.
  - apply Exists_cons_tl, Exists_cons_hd. apply add_big_r; [exact Hy1|].
    apply hash_term_big. exact H.
Qed.

Lemma squares_nonneg v :
  Forall nonneg v -> Forall nonneg (map (fun x => mul x x) v).
Proof.
  induction 1; cbn [map]; constructor; [apply mul_self_nonneg|]; assumption.
Qed.

Lemma squares_big v :
  Exists (big_sign false (-9)) v ->
  Exists (big_sign false (-19)) (map (fun x => mul x x) v).
Proof.
  induction 1 as [x v H|x v _ IH]; cbn [map].
  - apply Exists_cons_hd. apply (mul_self_big (-9) x); [reflexivity | exact H].
  - apply Exists_cons_tl, IH.
Qed.

Lemma sum_big_from k l : forall acc,
  big_sign false k acc -> Forall nonneg l ->
  big_sign false k (fold_left add l acc).
Proof.
  induction l as [|x l IH]; intros acc Ha Hl; cbn [fold_left]; [exact Ha|].
  inversion Hl; subst. apply IH; [apply add_big_l|]; assumption.
Qed.

Lemma sum_big k l : forall acc,
  nonneg acc -> Forall nonneg l -> Exists (big_sign false k) l ->
  big_sign false k (fold_left add l acc).
Proof.
  induction l as [|x l IH]; intros acc Ha Hl Hex; [inversion Hex|].
  cbn [fold_left]. inversion Hl; subst.
  inversion Hex as [? ? Hx|? ? Hx]; subst.
  - apply sum_big_from; [apply add_big_r|]; assumption.
  - apply IH; [apply add_nonneg| |]; assumption.
Qed.

(** With at least two dimensions the norm before normalization is
    positive. *)
Lemma l2_norm_positive v :
  Forall nonneg v -> Exists (big_sign false (-9)) v ->
  ltb zero (l2_norm v) = true.
Proof.
  intros Hv Hex. unfold l2_norm.
  apply (ltb_zero_big (emin + 1)), (sqrt_big (-19)).
  apply sum_big; [exact I | apply squares_nonneg, Hv | apply squares_big, Hex].
Qed.

Lemma spec_unnormalized_length text d :
  1 <= d -> length (spec_unnormalized text d) = Z.to_nat d.
Proof.
  intros Hd. unfold spec_unnormalized, spec_hashed_from, enumerate_from.
  rewrite length_map, length_combine, length_seq, Nat.min_id.
  apply (char_loop_ok text d Hd).
Qed.

Lemma spec_norm_positive text d :
  2 <= d -> ltb zero (l2_norm (spec_unnormalized text d)) = true.
Proof.
  intros Hd. unfold spec_unnormalized. apply l2_norm_positive.
  - apply spec_hashed_nonneg, spec_accumulate_nonneg.
  - apply spec_hashed_big; [apply spec_accumulate_nonneg|].
    destruct (char_loop_ok text d ltac:(lia)) as [_ ->]. lia.
Qed.

(** ** The reference vector, index by index *)

Lemma nth_error_add_at_from t k v : forall start j,
  nth_error (add_at_from start k t v) j
  = option_map (fun y => if (start + j =? k)%nat then add y t else y)
               (nth_error v j).
Proof.
  induction v as [|y v IH]; intros start j.
  - destruct j; reflexivity.
  - rewrite add_at_from_cons. destruct j as [|j]; cbn [nth_error option_map].
    + rewrite Nat.add_0_r. reflexivity.
    + rewrite IH. replace (S start + j)%nat with (start + S j)%nat by lia.
      reflexivity.
Qed.

Lemma nth_error_spec_hashed_from h v : forall start j,
  nth_error (spec_hashed_from start h v) j
  = option_map (fun y => add y (hash_term h (Z.of_nat (start + j))))
               (nth_error v j).
Proof.
  induction v as [|y v IH]; intros start j.
  - destruct j; reflexivity.
  - rewrite spec_hashed_from_cons.
    destruct j as [|j]; cbn [nth_error option_map].
    + rewrite Nat.add_0_r. reflexivity.
    + rewrite IH. replace (S start + j)%nat with (start + S j)%nat by lia.
      reflexivity.
Qed.

Lemma nth_error_accumulate d j ics : forall v,
  nth_error
    (fold_left
       (fun v ic =>
          add_at (Z.to_nat (Z.of_nat (fst ic) mod d)) (char_term (snd ic)) v)
       ics v) j
  = option_map (fun y => fold_left add (terms_at d j ics) y) (nth_error v j).
Proof.
  induction ics as [|ic ics IH]; intros v; cbn [fold_left].
  - destruct (nth_error v j); reflexivity.
  - rewrite IH. unfold add_at. rewrite nth_error_add_at_from.
    cbn [Nat.add]. unfold terms_at. cbn [filter].
    rewrite (Nat.eqb_sym j).
    destruct (nth_error v j) as [y|]; cbn [option_map]; [|reflexivity].
    destruct (Z.to_nat (Z.of_nat (fst ic) mod d) =? j)%nat; reflexivity.
Qed.

(** Characters that land on the same index accumulate there, in the order
    of the text. *)
Lemma spec_unnormalized_pointwise text d :
  spec_unnormalized text d
  = map (spec_element text d) (seq 0 (Z.to_nat d)).
Proof.
  apply nth_error_ext. intros j.
  unfold spec_unnormalized, spec_accumulate.
  rewrite nth_error_spec_hashed_from, nth_error_accumulate, nth_error_map.
  rewrite nth_error_seq. cbn [Nat.add].
  destruct (Nat.ltb_spec j (Z.to_nat d)) as [Hlt|Hge].
  - rewrite nth_error_repeat by assumption. reflexivity.
  - destruct (nth_error (repeat zero (Z.to_nat d)) j) eqn:Hj; [|reflexivity].
    assert (j < length (repeat zero (Z.to_nat d)))%nat
      by (apply nth_error_Some; congruence).
    rewrite repeat_length in *. lia.
Qed.

(** ** The generated vector holds no NaN

    Every term the two loops add is below [2^-3]; a sum of such terms never
    leaves the numbers below [2^54], however long the text. *)

Lemma char_below_table :
  forallb (fun k => belowb (-56) (mul (div (of_int k) f255) f0_1)) (range 255)
  = true.
Proof. vm_compute. reflexivity. Qed.

Lemma hash_below_table :
  forallb (fun k => belowb (-56) (div (of_int k) f1000)) (range 100) = true.
Proof. vm_compute. reflexivity. Qed.

Lemma char_term_below c : below (-56) (char_term c).
Proof.
  apply belowb_below. unfold char_term.
  apply (forallb_range _ _ char_below_table (c mod 255)).
  apply Z.mod_pos_bound. lia.
Qed.

Lemma hash_term_below h j : below (-56) (hash_term h j).
Proof.
  apply belowb_below. unfold hash_term.
  apply (forallb_range _ _ hash_below_table ((j + h) mod 100)).
  apply Z.mod_pos_bound. lia.
Qed.

Lemma add_at_from_below start k t v :
  below (-56) t -> Forall (below 1) v ->
  Forall (below 1) (add_at_from start k t v).
Proof.
  intros Ht. revert start. induction v as [|y v IH]; intros start Hv.
  - constructor.
  - inversion Hv; subst. rewrite add_at_from_cons. constructor.
    + destruct (start =? k)%nat; [apply add_below|]; assumption.
    + apply IH. assumption.
Qed.

Lemma repeat_zero_below n : Forall (below 1) (repeat zero n).
Proof. induction n; cbn; constructor; [exact I | assumption]. Qed.

Lemma spec_accumulate_below text d : Forall (below 1) (spec_accumulate text d).
Proof.
  unfold spec_accumulate. generalize (repeat_zero_below (Z.to_nat d)).
  generalize (repeat zero (Z.to_nat d)).
  induction (enumerate text) as [|ic l IH]; intros v Hv; cbn [fold_left].
  - exact Hv.
  - apply IH. apply add_at_from_below; [apply char_term_below | exact Hv].
Qed.

Lemma spec_hashed_below h v : forall start,
  Forall (below 1) v -> Forall (below 1) (spec_hashed_from start h v).
Proof.
  induction v as [|y v IH]; intros start Hv; [constructor|].
  inversion Hv; subst. rewrite spec_hashed_from_cons. constructor.
  - apply add_below; [assumption | apply hash_term_below].
  - apply IH. assumption.
Qed.

Lemma spec_unnormalized_below text d :
  Forall (below 1) (spec_unnormalized text d).
Proof. apply spec_hashed_below, spec_accumulate_below. Qed.

Lemma spec_normalize_no_nan v :
  Forall (below 1) v -> Forall (fun x => is_nan x = false) (spec_normalize v).
Proof.
  intros Hv. unfold spec_normalize.
  destruct (ltb zero (l2_norm v)) eqn:Hn.
  - apply Forall_map. eapply Forall_impl; [|exact Hv].
    intros x Hx. destruct (below_finite 1 x Hx) as [H1 H2].
    apply div_not_nan; assumption.
  - eapply Forall_impl; [|exact Hv].
    intros x Hx. apply (below_finite 1 x Hx).
Qed.

Lemma generateMock_spec_no_nan text d :
  Forall (fun x => is_nan x = false) (generateMock_spec text d).
Proof. apply spec_normalize_no_nan, spec_unnormalized_below. Qed.

(** [v == v] holds of a list without NaN. *)
Lemma py_list_eq_refl v :
  Forall (fun x => is_nan x = false) v -> py_list_eq v v = true.
Proof.
  induction 1 as [|x v Hx Hv IH]; cbn [py_list_eq]; [reflexivity|].
  rewrite (eqb_refl x Hx), IH. reflexivity.
Qed.

(** A NaN is the one float that [==] separates from itself. *)
Lemma py_list_eq_nan v : py_list_eq (S754_nan :: v) (S754_nan :: v) = false.
Proof. reflexivity. Qed.

(** With a dimension of zero or less the first pass of the character loop
    raises, at [i % dimensions] or at [embedding[idx]]. *)
Lemma nonpositive_dimension_outcome text d :
  d <= 0 ->
  generate_mock_embedding text d
  = match text with
    | [] => Ok []
    | _ :: _ => Raise (if d =? 0 then ZeroDivisionError else IndexError)
    end.
Proof.
  intros Hd. unfold generate_mock_embedding.
  assert (Hn : Z.to_nat d = 0%nat) by lia.
  unfold range. rewrite Hn. cbn [repeat seq map].
  destruct text as [|c text]; [reflexivity|].
  change (enumerate (c :: text))
    with ((0%nat, c) :: enumerate_from 1 text).
  cbn [foldM]. unfold char_step at 1. unfold py_mod at 1.
  destruct (Z.eqb_spec d 0) as [->|Hne]; [reflexivity|].
  cbn [bind]. unfold py_mod at 1. cbn [Z.eqb bind].
  change (Z.of_nat 0) with 0. rewrite Z.mod_0_l by assumption.
  reflexivity.
Qed.

(** ** The claims on the generator *)

Lemma generate_mock_embedding_split text d :
  generate_mock_embedding text d
  = (embedding <- mock_unnormalized text d ;;
     norm <- calculate_norm embedding ;;
     if ltb zero norm
     then mapM (fun x => truediv x norm) embedding
     else Ok embedding).
Proof.
  unfold generate_mock_embedding, mock_unnormalized.
  destruct (foldM (char_step d) (enumerate text) (repeat zero (Z.to_nat d)));
    reflexivity.
Qed.

Lemma mock_unnormalized_ok text d :
  1 <= d -> mock_unnormalized text d = Ok (spec_unnormalized text d).
Proof.
  intros Hd. unfold mock_unnormalized.
  destruct (char_loop_ok text d Hd) as [-> Hlen]. rewrite bind_ok.
  rewrite sum_codepoints, Z.add_0_l. apply hash_loop_ok, Hlen.
Qed.

Lemma validate_embedding_returns fmt6 v text :
  v <> [] ->
  exists lo hi,
    py_min v = Ok lo /\ py_max v = Ok hi /\
    validate_embedding fmt6 v text
    = Ok ((length (issues_of fmt6 v lo hi) =? 0)%nat, issues_of fmt6 v lo hi).
Proof.
  intros Hv. destruct v as [|x xs]; [contradiction|].
  exists (fold_left min_step xs x), (fold_left max_step xs x).
  repeat split. apply validate_embedding_cons.
Qed.

(** C1, amended.  The validator returns a verdict for every non-empty vector,
    NaN and infinities included, and the generator returns a vector for
    every text and every dimension of at least one: no exception is
    raised. *)
Theorem completes_without_exception fmt6 v text txt d :
  v <> [] -> 1 <= d ->
  (exists verdict, validate_embedding fmt6 v text = Ok verdict)
  /\ (exists emb, generate_mock_embedding txt d = Ok emb).
Proof.
  intros Hv Hd. split.
  - destruct (validate_embedding_returns fmt6 v text Hv)
      as (lo & hi & _ & _ & H).
    eexists. exact H.
  - eexists. apply generate_mock_embedding_ok, Hd.
Qed.

Lemma completes_without_exception_witness :
  [S754_nan; S754_infinity true] <> [] /\ 1 <= 3
  /\ (exists verdict,
         validate_embedding fmt_hex [S754_nan; S754_infinity true] []
         = Ok verdict)
  /\ (exists emb, generate_mock_embedding (str_of "ab") 3 = Ok emb).
Proof.
  split; [discriminate|]. split; [lia|].
  apply (completes_without_exception fmt_hex [S754_nan; S754_infinity true]
           [] (str_of "ab") 3); [discriminate | lia].
Defined.

(** C1 as stated fails: the validator raises [ValueError] on the empty vector
    (at [min]), and the generator raises on a dimension of zero with a
    non-empty text ([i % 0]) and on a negative one (index out of range). *)
Lemma completes_counterexample :
  validate_embedding fmt_hex [] [] = Raise ValueError
  /\ generate_mock_embedding (str_of "a") 0 = Raise ZeroDivisionError
  /\ generate_mock_embedding (str_of "a") (-1) = Raise IndexError.
Proof. repeat split. Qed.

(** C2.  For every text and every dimension of at least one, the script's
    generator returns the vector of the reference definition: zeros, the
    character terms [(codepoint mod 255) / 255.0 * 0.1] accumulated at
    [i mod dimensions], the hash term [((j + sum) mod 100) / 1000.0] added at
    every index [j], and the division by the L2 norm when it is positive
    (the vector unchanged otherwise). *)
Theorem generate_mock_embedding_refines_spec text d :
  1 <= d ->
  generate_mock_embedding text d = Ok (generateMock_spec text d)
  /\ generateMock_spec text d
     = (let v := map (spec_element text d) (seq 0 (Z.to_nat d)) in
        if ltb zero (l2_norm v) then map (fun x => div x (l2_norm v)) v
        else v).
Proof.
  intros Hd. split.
  - exact (generate_mock_embedding_ok text d Hd).
  - unfold generateMock_spec, spec_normalize.
    rewrite spec_unnormalized_pointwise. reflexivity.
Qed.

Lemma generate_mock_embedding_refines_spec_witness :
  1 <= 3
  /\ generate_mock_embedding (str_of "ab") 3
     = Ok (generateMock_spec (str_of "ab") 3)
  /\ generateMock_spec (str_of "ab") 3
     = (let v := map (spec_element (str_of "ab") 3) (seq 0 (Z.to_nat 3)) in
        if ltb zero (l2_norm v) then map (fun x => div x (l2_norm v)) v
        else v).
Proof.
  split; [lia|].
  apply (generate_mock_embedding_refines_spec (str_of "ab") 3). lia.
Defined.

(** C3, amended.  For every text and every dimension of at least two, the
    hash term is nonzero at some index (at index 0 or at index 1), the vector
    built before normalization has a norm strictly above zero, and the
    generator returns that vector divided by its norm. *)
Theorem norm_positive_from_two_dimensions text d :
  2 <= d ->
  (exists j, 0 <= j < d /\ (j + fold_left Z.add text 0) mod 100 <> 0)
  /\ exists v norm,
      mock_unnormalized text d = Ok v /\ calculate_norm v = Ok norm
      /\ ltb zero norm = true
      /\ generate_mock_embedding text d = Ok (map (fun x => div x norm) v).
Proof.
  intros Hd. split.
  - destruct (hash_index_nonzero (fold_left Z.add text 0)) as [H|H];
      [exists 0 | exists 1]; (split; [lia | exact H]).
  - exists (spec_unnormalized text d), (l2_norm (spec_unnormalized text d)).
    pose proof (spec_norm_positive text d Hd) as Hn.
    repeat split.
    + apply mock_unnormalized_ok. lia.
    + apply calculate_norm_ok.
    + exact Hn.
    + rewrite generate_mock_embedding_ok by lia.
      unfold generateMock_spec, spec_normalize. rewrite Hn. reflexivity.
Qed.

Lemma norm_positive_from_two_dimensions_witness :
  2 <= 2
  /\ (exists j, 0 <= j < 2 /\ (j + fold_left Z.add [] 0) mod 100 <> 0)
  /\ exists v norm,
      mock_unnormalized [] 2 = Ok v /\ calculate_norm v = Ok norm
      /\ ltb zero norm = true
      /\ generate_mock_embedding [] 2 = Ok (map (fun x => div x norm) v).
Proof.
  split; [lia|]. apply (norm_positive_from_two_dimensions [] 2). lia.
Defined.

(** C3 as stated fails at dimension one: for the empty text the only hash
    term is [0 / 1000.0], the vector before normalization is [[0.0]], its
    norm is zero, the test [norm > 0.0] fails and the vector is returned as
    it is. *)
Lemma norm_positive_counterexample :
  mock_unnormalized [] 1 = Ok [zero]
  /\ calculate_norm [zero] = Ok zero
  /\ ltb zero zero = false
  /\ generate_mock_embedding [] 1 = Ok [zero].
Proof. repeat split. Qed.

(** C4.  Two calls of the generator on the same text and dimension return
    sequences that are equal element for element, under the equality of
    Rocq (the same bits) and under the [==] of Python, for which a NaN
    would differ from itself: no element of a generated vector is a NaN,
    however long the text.  For a dimension of at least one the two calls
    return, and the determinism test of the script succeeds. *)
Theorem generate_mock_embedding_deterministic text d :
  (forall emb1 emb2,
      generate_mock_embedding text d = Ok emb1 ->
      generate_mock_embedding text d = Ok emb2 ->
      emb1 = emb2
      /\ Forall (fun x => is_nan x = false) emb1
      /\ py_list_eq emb1 emb2 = true)
  /\ determinism_test text d
     = match generate_mock_embedding text d with
       | Ok _ => Ok true
       | Raise e => Raise e
       end
  /\ (1 <= d -> determinism_test text d = Ok true).
Proof.
  assert (Hgen : forall emb,
             generate_mock_embedding text d = Ok emb ->
             Forall (fun x => is_nan x = false) emb).
  { intros emb H. destruct (Z_le_gt_dec d 0) as [Hd|Hd].
    - rewrite nonpositive_dimension_outcome in H by assumption.
      destruct text; [|discriminate]. injection H as <-. constructor.
    - rewrite generate_mock_embedding_ok in H by lia. injection H as <-.
      apply generateMock_spec_no_nan. }
  assert (Htest : determinism_test text d
                  = match generate_mock_embedding text d with
                    | Ok _ => Ok true
                    | Raise e => Raise e
                    end).
  { unfold determinism_test.
    destruct (generate_mock_embedding text d) as [emb|e] eqn:E;
      [|reflexivity].
    cbn [bind]. rewrite (py_list_eq_refl emb (Hgen emb eq_refl)).
    reflexivity. }
  split; [|split].
  - intros emb1 emb2 H1 H2. rewrite H1 in H2. injection H2 as <-.
    split; [reflexivity|]. split; [exact (Hgen emb1 H1)|].
    apply py_list_eq_refl, (Hgen emb1 H1).
  - exact Htest.
  - intros Hd. rewrite Htest, generate_mock_embedding_ok by exact Hd.
    reflexivity.
Qed.

Lemma generate_mock_embedding_deterministic_witness :
  1 <= 1024 /\ determinism_test (str_of "test text") 1024 = Ok true.
Proof.
  split; [lia|].
  apply (proj2 (proj2 (generate_mock_embedding_deterministic
                         (str_of "test text") 1024))).
  lia.
Defined.

(** ** The claims on the validator *)

Lemma verdict_true_iff (issues : list string) :
  (length issues =? 0)%nat = true <-> issues = [].
Proof.
  destruct issues; cbn; split; intros H; try reflexivity; discriminate.
Qed.

Lemma dimension_issues_mismatch v :
  length v <> 1024%nat -> dimension_issues v = [dimension_issue (length v)].
Proof.
  intros H. unfold dimension_issues.
  destruct (Nat.eqb_spec (length v) 1024); [contradiction | reflexivity].
Qed.

(** C5, amended.  For every non-empty vector whose length differs from 1024
    the validator returns an invalid verdict whose first issue is the
    dimension issue with the actual length; and whatever it returns, the
    verdict is valid exactly when the issue list is empty. *)
Theorem dimension_mismatch_reported fmt6 v text :
  v <> [] -> length v <> 1024%nat ->
  (exists rest,
      validate_embedding fmt6 v text
      = Ok (false, dimension_issue (length v) :: rest))
  /\ (forall ok issues,
         validate_embedding fmt6 v text = Ok (ok, issues) ->
         (ok = true <-> issues = [])).
Proof.
  intros Hv Hlen.
  destruct (validate_embedding_returns fmt6 v text Hv) as (lo & hi & _ & _ & H).
  rewrite H. split.
  - unfold issues_of. rewrite (dimension_issues_mismatch v Hlen).
    cbn [app length Nat.eqb]. eexists. reflexivity.
  - intros ok issues E. injection E as <- <-. apply verdict_true_iff.
Qed.

Lemma dimension_mismatch_reported_witness :
  [f0_5] <> [] /\ length [f0_5] <> 1024%nat
  /\ (exists rest,
         validate_embedding fmt_hex [f0_5] []
         = Ok (false, dimension_issue (length [f0_5]) :: rest))
  /\ (forall ok issues,
         validate_embedding fmt_hex [f0_5] [] = Ok (ok, issues) ->
         (ok = true <-> issues = [])).
Proof.
  split; [discriminate|]. split; [cbn; lia|].
  apply (dimension_mismatch_reported fmt_hex [f0_5] []);
    [discriminate | cbn; lia].
Defined.

(** C5 as stated fails on the empty vector: its length differs from 1024,
    and the validator raises [ValueError] instead of returning a verdict. *)
Lemma dimension_mismatch_counterexample :
  length (@nil float) <> 1024%nat
  /\ validate_embedding fmt_hex [] [] = Raise ValueError.
Proof. split; [cbn; lia | reflexivity]. Qed.

Lemma one_if_pos (p : float -> bool) v x :
  In x v -> p x = true -> exists i, one_if p v i = 1%nat.
Proof.
  intros Hin Hp. destruct (In_nth_error v x Hin) as [i Hi].
  exists i. unfold one_if. rewrite Hi, Hp. reflexivity.
Qed.

(** C6.  For every vector with a NaN or an infinite element the validator
    returns an invalid verdict, and for every index [i] its issue list holds
    the issue "NaN value at index i" once when the element at [i] is a NaN
    and not otherwise, and "Infinite value at index i" once when that element
    is infinite and not otherwise. *)
Theorem non_finite_reported fmt6 v text :
  has_nan v \/ has_inf v ->
  exists issues,
    validate_embedding fmt6 v text = Ok (false, issues)
    /\ forall i,
        count_occ string_dec issues (nan_issue i) = one_if is_nan v i
        /\ count_occ string_dec issues (inf_issue i) = one_if is_inf v i.
Proof.
  intros Hbad.
  assert (Hv : v <> []).
  { destruct Hbad as [(x & Hin & _)|(x & Hin & _)]; intros ->; destruct Hin. }
  destruct (validate_embedding_returns fmt6 v text Hv) as (lo & hi & _ & _ & H).
  assert (Hcount : forall i,
             count_occ string_dec (issues_of fmt6 v lo hi) (nan_issue i)
             = one_if is_nan v i
             /\ count_occ string_dec (issues_of fmt6 v lo hi) (inf_issue i)
                = one_if is_inf v i).
  { intros i. split.
    - rewrite count_finiteness_issues by (left; apply prefix2_nan).
      apply count_nan_finiteness.
    - rewrite count_finiteness_issues by (right; apply prefix2_inf).
      apply count_inf_finiteness. }
  exists (issues_of fmt6 v lo hi). split; [|exact Hcount].
  rewrite H. f_equal. f_equal.
  destruct Hbad as [(x & Hin & Hx)|(x & Hin & Hx)].
  - destruct (one_if_pos is_nan v x Hin Hx) as [i Hi].
    apply (issues_nonempty_verdict _ (nan_issue i)).
    apply (count_occ_In string_dec). rewrite (proj1 (Hcount i)), Hi. lia.
  - destruct (one_if_pos is_inf v x Hin Hx) as [i Hi].
    apply (issues_nonempty_verdict _ (inf_issue i)).
    apply (count_occ_In string_dec). rewrite (proj2 (Hcount i)), Hi. lia.
Qed.

Lemma non_finite_reported_witness :
  (has_nan [f0_5; S754_nan; S754_infinity true]
   \/ has_inf [f0_5; S754_nan; S754_infinity true])
  /\ exists issues,
      validate_embedding fmt_hex [f0_5; S754_nan; S754_infinity true] []
      = Ok (false, issues)
      /\ forall i,
          count_occ string_dec issues (nan_issue i)
          = one_if is_nan [f0_5; S754_nan; S754_infinity true] i
          /\ count_occ string_dec issues (inf_issue i)
             = one_if is_inf [f0_5; S754_nan; S754_infinity true] i.
Proof.
  assert (H : has_nan [f0_5; S754_nan; S754_infinity true]).
  { exists S754_nan. split; [right; left; reflexivity | reflexivity]. }
  split; [left; exact H|].
  apply (non_finite_reported fmt_hex [f0_5; S754_nan; S754_infinity true] []).
  left; exact H.
Defined.

Lemma calculate_norm_inv v norm :
  calculate_norm v = Ok norm -> norm = l2_norm v.
Proof. rewrite calculate_norm_ok. intros H. now injection H. Qed.

Lemma norm_issues_none fmt6 norm :
  ltb norm f0_9 = false -> ltb f1_1 norm = false -> norm_issues fmt6 norm = [].
Proof. intros H1 H2. unfold norm_issues. rewrite H1, H2. reflexivity. Qed.

Lemma norm_issues_some fmt6 norm :
  ltb norm f0_9 = true \/ ltb f1_1 norm = true ->
  norm_issues fmt6 norm = [norm_issue fmt6 norm].
Proof.
  intros H. unfold norm_issues.
  destruct H as [-> | ->]; rewrite ?orb_true_r; reflexivity.
Qed.

Lemma l2_norm_nil : l2_norm [] = zero.
Proof. reflexivity. Qed.

(** C7, amended.  With [norm] the norm the script computes for the vector
    (the square root of the sum of the squares): when [0.9 <= norm <= 1.1]
    the validator returns and its issue list holds no norm issue; when the
    vector is not empty and [norm < 0.9] or [norm > 1.1], the validator
    returns an invalid verdict whose issue list holds the norm issue written
    with [norm] itself. *)
Theorem norm_check fmt6 v text norm :
  calculate_norm v = Ok norm ->
  (leb f0_9 norm = true -> leb norm f1_1 = true ->
   exists ok issues,
     validate_embedding fmt6 v text = Ok (ok, issues)
     /\ forall n, ~ In (norm_issue fmt6 n) issues)
  /\ (v <> [] -> ltb norm f0_9 = true \/ ltb f1_1 norm = true ->
      exists issues,
        validate_embedding fmt6 v text = Ok (false, issues)
        /\ In (norm_issue fmt6 norm) issues).
Proof.
  intros Hnorm. apply calculate_norm_inv in Hnorm. split.
  - intros Hlo Hhi.
    assert (Hv : v <> []).
    { intros ->. rewrite l2_norm_nil in Hnorm. subst norm. discriminate. }
    destruct (validate_embedding_returns fmt6 v text Hv)
      as (lo & hi & _ & _ & H).
    do 2 eexists. split; [exact H|].
    intros n Hin. apply in_norm_issues in Hin. rewrite <- Hnorm in Hin.
    rewrite norm_issues_none in Hin by (apply leb_not_ltb; assumption).
    destruct Hin.
  - intros Hv Hout.
    destruct (validate_embedding_returns fmt6 v text Hv)
      as (lo & hi & _ & _ & H).
    assert (Hin : In (norm_issue fmt6 norm) (issues_of fmt6 v lo hi)).
    { apply in_issues_of. right; right; left. rewrite <- Hnorm.
      rewrite norm_issues_some by assumption. left; reflexivity. }
    exists (issues_of fmt6 v lo hi). split; [|exact Hin].
    rewrite H, (issues_nonempty_verdict _ _ Hin). reflexivity.
Qed.

Lemma norm_check_witness :
  calculate_norm [f0_5] = Ok f0_5
  /\ [f0_5] <> []
  /\ (ltb f0_5 f0_9 = true \/ ltb f1_1 f0_5 = true)
  /\ (exists issues,
         validate_embedding fmt_hex [f0_5] [] = Ok (false, issues)
         /\ In (norm_issue fmt_hex f0_5) issues)
  /\ calculate_norm [of_int 1] = Ok (of_int 1)
  /\ leb f0_9 (of_int 1) = true /\ leb (of_int 1) f1_1 = true
  /\ (exists ok issues,
         validate_embedding fmt_hex [of_int 1] [] = Ok (ok, issues)
         /\ forall n, ~ In (norm_issue fmt_hex n) issues).
Proof.
  split; [reflexivity|]. split; [discriminate|].
  split; [left; reflexivity|]. split.
  - apply (proj2 (norm_check fmt_hex [f0_5] [] f0_5 eq_refl));
      [discriminate | left; reflexivity].
  - split; [reflexivity|]. split; [reflexivity|]. split; [reflexivity|].
    apply (proj1 (norm_check fmt_hex [of_int 1] [] (of_int 1) eq_refl));
      reflexivity.
Defined.

(** C7 as stated fails on the empty vector: its computed norm is [0.0],
    strictly below 0.9, and the validator raises [ValueError] instead of
    returning an issue list. *)
Lemma norm_check_counterexample :
  calculate_norm [] = Ok zero
  /\ ltb zero f0_9 = true
  /\ validate_embedding fmt_hex [] [] = Raise ValueError.
Proof. repeat split. Qed.

(** The two norms the specification names: a vector of 1024 elements of
    norm 0.5, and one of norm 1.5, each get the norm issue and no other. *)
Example norm_half fmt6 text :
  calculate_norm (f0_5 :: repeat zero 1023) = Ok f0_5
  /\ validate_embedding fmt6 (f0_5 :: repeat zero 1023) text
     = Ok (false, [norm_issue fmt6 f0_5]).
Proof. split; vm_compute; reflexivity. Qed.

Example norm_one_and_half fmt6 text :
  calculate_norm (f1_5 :: repeat zero 1023) = Ok f1_5
  /\ validate_embedding fmt6 (f1_5 :: repeat zero 1023) text
     = Ok (false, [norm_issue fmt6 f1_5]).
Proof. split; vm_compute; reflexivity. Qed.

Lemma in_range_bounds x :
  in_range x = true -> ltb x fm10 = false /\ ltb f10 x = false.
Proof.
  unfold in_range. intros H. apply andb_prop in H. destruct H as [H1 H2].
  split; apply leb_not_ltb; assumption.
Qed.


Lemma range_issues_some fmt6 lo hi :
  ltb lo fm10 = true \/ ltb f10 hi = true ->
  range_issues fmt6 lo hi = [range_issue fmt6 lo hi].
Proof.
  intros H. unfold range_issues.
  destruct H as [-> | ->]; rewrite ?orb_true_r; reflexivity.
Qed.

Lemma range_issue_reported fmt6 v text lo hi :
  py_min v = Ok lo -> py_max v = Ok hi ->
  ltb lo fm10 = true \/ ltb f10 hi = true ->
  exists issues,
    validate_embedding fmt6 v text = Ok (false, issues)
    /\ In (range_issue fmt6 lo hi) issues.
Proof.
  intros Hlo Hhi Hout. destruct v as [|x xs]; [discriminate|].
  cbn [py_min py_max] in Hlo, Hhi. injection Hlo as Hlo. injection Hhi as Hhi.
  assert (Hin : In (range_issue fmt6 lo hi) (issues_of fmt6 (x :: xs) lo hi)).
  { apply in_issues_of. right; right; right; left.
    rewrite range_issues_some by assumption. left; reflexivity. }
  exists (issues_of fmt6 (x :: xs) lo hi). split; [|exact Hin].
  rewrite validate_embedding_cons, Hlo, Hhi.
  rewrite (issues_nonempty_verdict _ _ Hin). reflexivity.
Qed.




(** The example of the specification: a vector of 1024 elements one of which
    is 15.0 gets the range issue. *)
Example range_fifteen fmt6 text :
  exists issues,
    validate_embedding fmt6 (f15 :: repeat zero 1023) text = Ok (false, issues)
    /\ In (range_issue fmt6 zero f15) issues.
Proof.
  eexists. split; [vm_compute; reflexivity|]. right; left; reflexivity.
Qed.

Lemma zero_issues_iff v :
  In zero_issue (zero_issues v) <-> forallb near_zero v = true.
Proof.
  unfold zero_issues. destruct (forallb near_zero v); cbn [In].
  - split; auto.
  - split; [intros [] | discriminate].
Qed.

(** C9, amended.  For the vector of 1024 zeros the validator returns an
    invalid verdict whose issues are the norm issue (for the norm 0.0) and
    the degeneracy issue, and no other; and for every non-empty vector the
    degeneracy issue is in the returned issue list exactly when every
    element is strictly below 1e-6 in absolute value. *)
Theorem degeneracy_check fmt6 v text :
  validate_embedding fmt6 (repeat zero 1024) text
  = Ok (false, [norm_issue fmt6 zero; zero_issue])
  /\ (v <> [] ->
      exists ok issues,
        validate_embedding fmt6 v text = Ok (ok, issues)
        /\ (In zero_issue issues <-> forallb near_zero v = true)).
Proof.
  split; [vm_compute; reflexivity|].
  intros Hv.
  destruct (validate_embedding_returns fmt6 v text Hv) as (lo & hi & _ & _ & H).
  do 2 eexists. split; [exact H|].
  rewrite <- zero_issues_iff. split.
  - apply in_zero_issues.
  - intros Hin. apply in_issues_of. tauto.
Qed.

Lemma degeneracy_check_witness :
  [f0_5] <> []
  /\ exists ok issues,
      validate_embedding fmt_hex [f0_5] [] = Ok (ok, issues)
      /\ (In zero_issue issues <-> forallb near_zero [f0_5] = true).
Proof.
  split; [discriminate|].
  apply (proj2 (degeneracy_check fmt_hex [f0_5] [])). discriminate.
Defined.

(** C9 as stated fails on the empty vector: every element of it is below
    1e-6 in absolute value, and the validator raises [ValueError] instead of
    returning the degeneracy issue. *)
Lemma degeneracy_check_counterexample :
  forallb near_zero [] = true
  /\ validate_embedding fmt_hex [] [] = Raise ValueError.
Proof. split; reflexivity. Qed.

(** C10.  For every vector with a NaN element the computed norm is a NaN,
    neither comparison of the norm check holds of it, and the validator
    returns an (invalid) verdict whose issue list holds no norm issue,
    whatever the other elements are. *)
Theorem nan_hides_norm_issue fmt6 v text :
  has_nan v ->
  calculate_norm v = Ok S754_nan
  /\ ltb S754_nan f0_9 = false /\ ltb f1_1 S754_nan = false
  /\ exists issues,
      validate_embedding fmt6 v text = Ok (false, issues)
      /\ forall n, ~ In (norm_issue fmt6 n) issues.
Proof.
  intros Hnan. pose proof (l2_norm_nan v Hnan) as Hn.
  split; [rewrite calculate_norm_ok, Hn; reflexivity|].
  split; [reflexivity|]. split; [reflexivity|].
  assert (Hv : v <> []).
  { destruct Hnan as (x & Hin & _). intros ->. destruct Hin. }
  destruct (validate_embedding_returns fmt6 v text Hv) as (lo & hi & _ & _ & H).
  exists (issues_of fmt6 v lo hi). split.
  - rewrite H. f_equal. f_equal.
    destruct Hnan as (x & Hin & Hx).
    destruct (one_if_pos is_nan v x Hin Hx) as [i Hi].
    apply (issues_nonempty_verdict _ (nan_issue i)).
    apply (count_occ_In string_dec).
    rewrite count_finiteness_issues by (left; apply prefix2_nan).
    rewrite count_nan_finiteness, Hi. lia.
  - intros n Hin. apply in_norm_issues in Hin. rewrite Hn in Hin.
    destruct Hin.
Qed.

Lemma nan_hides_norm_issue_witness :
  has_nan [f15; S754_nan]
  /\ calculate_norm [f15; S754_nan] = Ok S754_nan
  /\ ltb S754_nan f0_9 = false /\ ltb f1_1 S754_nan = false
  /\ exists issues,
      validate_embedding fmt_hex [f15; S754_nan] [] = Ok (false, issues)
      /\ forall n, ~ In (norm_issue fmt_hex n) issues.
Proof.
  assert (H : has_nan [f15; S754_nan]).
  { exists S754_nan. split; [right; left; reflexivity | reflexivity]. }
  split; [exact H|].
  apply (nan_hides_norm_issue fmt_hex [f15; S754_nan] []). exact H.
Defined.

(** ** The script's own checks *)

(** A small run, bit for bit: [generate_mock_embedding("ab", 3)]. *)
Example mock_ab :
  generate_mock_embedding (str_of "ab") 3
  = Ok [S754_finite false 5637612774359306 (-53);
        S754_finite false 5696606216802858 (-53);
        S754_finite false 8220860838542515 (-54)].
Proof. vm_compute. reflexivity. Qed.

(** Each of the five sample texts of [verify_mock_embeddings] gives a vector
    the validator accepts. *)
Example mock_samples_valid fmt6 :
  forallb (fun text =>
             match mock_check fmt6 text with
             | Ok (true, []) => true
             | _ => false
             end) test_texts = true.
Proof. vm_compute. reflexivity. Qed.

(** The empty text with 1024 dimensions gives 1024 finite numbers. *)
Example mock_empty_text :
  match generate_mock_embedding [] 1024 with
  | Ok emb => (length emb =? 1024)%nat && forallb is_finite emb
  | Raise _ => false
  end = true.
Proof. vm_compute. reflexivity. Qed.

(** A NaN in first position stays the [min] and the [max] of the vector:
    the range check then reports nothing, whatever the other elements. *)
Example leading_nan_hides_range fmt6 text :
  validate_embedding fmt6 [S754_nan; f15] text
  = Ok (false, [dimension_issue 2; nan_issue 0]).
Proof. reflexivity. Qed.

(** ** Further properties of the norm *)

Lemma wf_sign_not_negative x : wf_sign false x -> not_negative x.
Proof. destruct x; cbn [wf_sign not_negative]; tauto. Qed.

Lemma not_negative_not_nan x : not_negative x -> is_nan x = false.
Proof.
  destruct x; cbn [not_negative]; intros H;
    [reflexivity..|destruct H|reflexivity].
Qed.

Lemma not_negative_sign x : not_negative x -> nonneg_or_nan x.
Proof. destruct x; cbn [not_negative nonneg_or_nan]; tauto. Qed.

Lemma mul_self_not_negative x : is_nan x = false -> not_negative (mul x x).
Proof.
  destruct x as [s|s| |s m e]; intros H; try discriminate.
  - exact I.
  - destruct s; reflexivity.
  - apply wf_sign_not_negative. unfold mul, SFmul.
    replace (xorb s s) with false by (destruct s; reflexivity).
    apply binary_round_aux_wf. lia.
Qed.

Lemma add_not_negative x y :
  not_negative x -> not_negative y -> not_negative (add x y).
Proof.
  intros Hx Hy.
  destruct x as [sx|sx| |sx mx ex], y as [sy|sy| |sy my ey];
    cbn [not_negative] in Hx, Hy; subst; try contradiction;
    try exact I; try reflexivity.
  - destruct sx, sy; exact I.
  - apply wf_sign_not_negative. unfold add, SFadd. cbv zeta.
    unfold cond_Zopp.
    match goal with |- context [Z.pos ?a + Z.pos ?b] =>
      change (Z.pos a + Z.pos b) with (Z.pos (a + b)) end.
    cbn [binary_normalize]. apply binary_round_wf.
Qed.

Lemma sqrt_core_nonneg m e :
  let '(q, e', l) := SFsqrt_core_binary prec emax (Zpos m) e in 0 <= q.
Proof.
  unfold SFsqrt_core_binary.
  set (m' := match e - 2 * _ with Z0 => _ | Zpos _ => _ | Zneg _ => _ end).
  assert (Hm' : 0 <= m').
  { unfold m'. destruct (e - 2 * _) as [|p|p]; try lia.
    apply Z.shiftl_nonneg. lia. }
  pose proof (Z.sqrtrem_spec m' Hm') as Hq.
  destruct (Z.sqrtrem m') as [q r]. nia.
Qed.

Lemma sqrt_not_negative x : not_negative x -> not_negative (sqrt x).
Proof.
  destruct x as [s|s| |s m e]; cbn [not_negative]; intros H;
    try contradiction.
  - exact I.
  - subst. reflexivity.
  - subst. unfold sqrt, SFsqrt.
    pose proof (sqrt_core_nonneg m e) as Hq.
    destruct (SFsqrt_core_binary prec emax (Z.pos m) e) as [[q e'] l].
    apply wf_sign_not_negative, binary_round_aux_wf, Hq.
Qed.

Lemma sum_not_negative l : forall acc,
  not_negative acc -> Forall not_negative l ->
  not_negative (fold_left add l acc).
Proof.
  induction l as [|x l IH]; intros acc Ha Hl; cbn [fold_left]; [exact Ha|].
  inversion Hl; subst. apply IH; [apply add_not_negative|]; assumption.
Qed.

Lemma squares_not_negative v :
  Forall (fun x => is_nan x = false) v ->
  Forall not_negative (map (fun x => mul x x) v).
Proof.
  induction 1; cbn [map]; constructor;
    [apply mul_self_not_negative|]; assumption.
Qed.

Lemma no_nan_forall v :
  ~ has_nan v -> Forall (fun x => is_nan x = false) v.
Proof.
  intros H. apply Forall_forall. intros x Hx.
  destruct (is_nan x) eqn:E; [|reflexivity].
  exfalso. apply H. exists x. auto.
Qed.

Lemma l2_norm_not_negative v : ~ has_nan v -> not_negative (l2_norm v).
Proof.
  intros H. unfold l2_norm. apply sqrt_not_negative.
  apply sum_not_negative; [exact I|].
  apply squares_not_negative, no_nan_forall, H.
Qed.

(** X1.  [calculate_norm] raises for no vector (the sum of the squares is
    never negative); the norm it returns is never below zero, and it is a
    NaN exactly when some element is a NaN. *)
Theorem calculate_norm_total v :
  exists norm,
    calculate_norm v = Ok norm
    /\ ltb norm zero = false
    /\ (is_nan norm = true <-> has_nan v).
Proof.
  exists (l2_norm v). split; [apply calculate_norm_ok|].
  assert (Hcases : has_nan v \/ ~ has_nan v).
  { destruct (existsb is_nan v) eqn:E.
    - left. apply existsb_exists in E. exact E.
    - right. intros (x & Hin & Hx).
      assert (existsb is_nan v = true)
        by (apply existsb_exists; exists x; auto).
      congruence. }
  destruct Hcases as [Hnan|Hnone].
  - rewrite (l2_norm_nan v Hnan). split; [reflexivity|]. tauto.
  - pose proof (l2_norm_not_negative v Hnone) as Hn. split.
    + apply ltb_sign, not_negative_sign, Hn.
    + rewrite (not_negative_not_nan _ Hn). split; [discriminate | tauto].
Qed.




(** ** An infinite element *)

Lemma add_inf_l y :
  not_negative y -> add (S754_infinity false) y = S754_infinity false.
Proof.
  destruct y as [s|s| |s m e]; cbn [not_negative]; intros H;
    subst; try contradiction; reflexivity.
Qed.

Lemma add_inf_r x :
  not_negative x -> add x (S754_infinity false) = S754_infinity false.
Proof.
  destruct x as [s|s| |s m e]; cbn [not_negative]; intros H;
    subst; try contradiction; reflexivity.
Qed.

Lemma sum_from_inf l :
  Forall not_negative l ->
  fold_left add l (S754_infinity false) = S754_infinity false.
Proof.
  induction 1 as [|x l Hx _ IH]; cbn [fold_left]; [reflexivity|].
  rewrite add_inf_l by assumption. exact IH.
Qed.

Lemma sum_with_inf l : forall acc,
  not_negative acc -> Forall not_negative l -> In (S754_infinity false) l ->
  fold_left add l acc = S754_infinity false.
Proof.
  induction l as [|x l IH]; intros acc Ha Hl Hin; [destruct Hin|].
  inversion Hl; subst. cbn [fold_left]. destruct Hin as [->|Hin].
  - rewrite add_inf_r by assumption. apply sum_from_inf. assumption.
  - apply IH; [apply add_not_negative| |]; assumption.
Qed.

Lemma mul_self_inf x : is_inf x = true -> mul x x = S754_infinity false.
Proof.
  destruct x as [s|s| |s m e]; try discriminate. intros _.
  destruct s; reflexivity.
Qed.

Lemma l2_norm_inf v :
  has_inf v -> ~ has_nan v -> l2_norm v = S754_infinity false.
Proof.
  intros (x & Hin & Hx) Hnan. unfold l2_norm.
  rewrite sum_with_inf; [reflexivity | exact I | |].
  - apply squares_not_negative, no_nan_forall, Hnan.
  - apply in_map_iff. exists x. split; [apply mul_self_inf, Hx | exact Hin].
Qed.

Lemma is_inf_cases x :
  is_inf x = true -> x = S754_infinity false \/ x = S754_infinity true.
Proof.
  destruct x as [s|s| |s m e]; try discriminate. intros _.
  destruct s; auto.
Qed.

(** X3.  An infinite element in a vector without NaN makes the computed
    norm the positive infinity, and the validator reports, besides the
    infinite value itself, both the norm issue and the range issue. *)
Theorem infinite_element_reported fmt6 v text :
  has_inf v -> ~ has_nan v ->
  calculate_norm v = Ok (S754_infinity false)
  /\ exists lo hi issues,
      py_min v = Ok lo /\ py_max v = Ok hi
      /\ validate_embedding fmt6 v text = Ok (false, issues)
      /\ In (norm_issue fmt6 (S754_infinity false)) issues
      /\ In (range_issue fmt6 lo hi) issues.
Proof.
  intros Hinf Hnan. pose proof (l2_norm_inf v Hinf Hnan) as Hn.
  split; [rewrite calculate_norm_ok, Hn; reflexivity|].
  pose proof (no_nan_forall v Hnan) as Hall.
  destruct v as [|x xs]; [destruct Hinf as (? & [] & _)|].
  pose proof (py_min_minimum x xs Hall) as Hlo.
  pose proof (py_max_maximum x xs Hall) as Hhi.
  set (lo := fold_left min_step xs x) in *.
  set (hi := fold_left max_step xs x) in *.
  assert (Hout : ltb lo fm10 = true \/ ltb f10 hi = true).
  { destruct Hinf as (y & Hin & Hy).
    destruct (is_inf_cases y Hy) as [-> | ->].
    - right. apply (ltb_leb_trans f10 (S754_infinity false) hi);
        [reflexivity | apply (proj2 Hhi), Hin].
    - left. apply (leb_ltb_trans lo (S754_infinity true) fm10);
        [apply (proj2 Hlo), Hin | reflexivity]. }
  destruct (range_issue_reported fmt6 (x :: xs) text lo hi eq_refl eq_refl
              Hout) as (issues & Hval & Hrange).
  exists lo, hi, issues. repeat split; try assumption.
  rewrite validate_embedding_cons in Hval. injection Hval as _ <-.
  apply in_issues_of. right; right; left. rewrite Hn. left; reflexivity.
Qed.

Lemma infinite_element_reported_witness :
  has_inf [f0_5; S754_infinity true]
  /\ ~ has_nan [f0_5; S754_infinity true]
  /\ calculate_norm [f0_5; S754_infinity true] = Ok (S754_infinity false)
  /\ exists lo hi issues,
      py_min [f0_5; S754_infinity true] = Ok lo
      /\ py_max [f0_5; S754_infinity true] = Ok hi
      /\ validate_embedding fmt_hex [f0_5; S754_infinity true] []
         = Ok (false, issues)
      /\ In (norm_issue fmt_hex (S754_infinity false)) issues
      /\ In (range_issue fmt_hex lo hi) issues.
Proof.
  assert (H1 : has_inf [f0_5; S754_infinity true]).
  { exists (S754_infinity true). split; [right; left|]; reflexivity. }
  assert (H2 : ~ has_nan [f0_5; S754_infinity true]).
  { intros (x & [<-|[<-|[]]] & Hx); discriminate. }
  split; [exact H1|]. split; [exact H2|].
  apply (infinite_element_reported fmt_hex [f0_5; S754_infinity true] []);
    assumption.
Defined.

(** ** What the validator accepts *)

Lemma dimension_issues_nil v :
  dimension_issues v = [] <-> length v = 1024%nat.
Proof.
  unfold dimension_issues.
  destruct (Nat.eqb_spec (length v) 1024); cbn [negb]; split; intros H;
    try reflexivity; try assumption; [discriminate | contradiction].
Qed.

Lemma finiteness_issues_at_nil iv :
  finiteness_issues_at iv = [] <-> is_finite (snd iv) = true.
Proof.
  unfold finiteness_issues_at, is_finite.
  destruct (is_nan (snd iv)), (is_inf (snd iv)); cbn; split; intros H;
    try reflexivity; discriminate.
Qed.

Lemma flat_finiteness_nil v : forall start,
  flat_map finiteness_issues_at (enumerate_from start v) = []
  <-> Forall (fun x => is_finite x = true) v.
Proof.
  induction v as [|y v IH]; intros start.
  - split; [constructor | reflexivity].
  - change (enumerate_from start (y :: v))
      with ((start, y) :: enumerate_from (S start) v).
    cbn [flat_map]. split.
    + intros H. apply app_eq_nil in H. destruct H as [H1 H2].
      constructor; [apply (finiteness_issues_at_nil (start, y)), H1|].
      apply (IH (S start)), H2.
    + intros H. inversion H; subst.
      rewrite (proj2 (finiteness_issues_at_nil (start, y))) by assumption.
      apply (IH (S start)). assumption.
Qed.

Lemma finiteness_issues_nil v :
  finiteness_issues v = [] <-> Forall (fun x => is_finite x = true) v.
Proof. apply flat_finiteness_nil. Qed.

Lemma norm_issues_nil fmt6 n :
  norm_issues fmt6 n = [] <-> ltb n f0_9 = false /\ ltb f1_1 n = false.
Proof.
  unfold norm_issues. destruct (ltb n f0_9), (ltb f1_1 n); cbn [orb];
    intuition congruence.
Qed.

Lemma range_issues_nil fmt6 lo hi :
  range_issues fmt6 lo hi = [] <-> ltb lo fm10 = false /\ ltb f10 hi = false.
Proof.
  unfold range_issues. destruct (ltb lo fm10), (ltb f10 hi); cbn [orb];
    intuition congruence.
Qed.

Lemma zero_issues_nil v : zero_issues v = [] <-> forallb near_zero v = false.
Proof.
  unfold zero_issues. destruct (forallb near_zero v); split; intros H;
    try reflexivity; discriminate.
Qed.

Lemma issues_of_nil fmt6 v lo hi :
  issues_of fmt6 v lo hi = [] <->
  length v = 1024%nat
  /\ Forall (fun x => is_finite x = true) v
  /\ (ltb (l2_norm v) f0_9 = false /\ ltb f1_1 (l2_norm v) = false)
  /\ (ltb lo fm10 = false /\ ltb f10 hi = false)
  /\ forallb near_zero v = false.
Proof.
  unfold issues_of.
  rewrite <- dimension_issues_nil, <- finiteness_issues_nil,
    <- (norm_issues_nil fmt6), <- (range_issues_nil fmt6), <- zero_issues_nil.
  split.
  - intros H. repeat (apply app_eq_nil in H; destruct H as [? H]). auto.
  - intros (-> & -> & -> & -> & ->). reflexivity.
Qed.

Lemma in_range_finite x : in_range x = true -> is_finite x = true.
Proof.
  destruct x as [s|s| |s m e]; try reflexivity; [|discriminate].
  destruct s; discriminate.
Qed.

Lemma is_finite_not_nan x : is_finite x = true -> is_nan x = false.
Proof. destruct x; try reflexivity. discriminate. Qed.

Lemma in_range_of_bounds x :
  leb fm10 x = true -> leb x f10 = true -> in_range x = true.
Proof. intros H1 H2. unfold in_range. rewrite H1, H2. reflexivity. Qed.

(** X4.  The validator accepts a vector, that is returns the verdict
    [True] with no issue, exactly when the vector has 1024 elements, its
    computed norm lies in [[0.9, 1.1]], every element lies in
    [[-10.0, 10.0]] and some element is at least [1e-6] in absolute
    value. *)
Theorem validate_accepts_iff fmt6 v text :
  validate_embedding fmt6 v text = Ok (true, [])
  <-> length v = 1024%nat
      /\ (exists norm,
             calculate_norm v = Ok norm
             /\ leb f0_9 norm = true /\ leb norm f1_1 = true)
      /\ Forall (fun x => in_range x = true) v
      /\ forallb near_zero v = false.
Proof.
  destruct v as [|x xs].
  { split; [discriminate | intros [H _]; discriminate]. }
  rewrite validate_embedding_cons.
  set (v := x :: xs). set (lo := fold_left min_step xs x).
  set (hi := fold_left max_step xs x).
  split.
  - intros H. injection H as _ H. apply issues_of_nil in H.
    destruct H as (Hlen & Hfin & [Hn1 Hn2] & [Hr1 Hr2] & Hz).
    assert (Hnan : Forall (fun y => is_nan y = false) v).
    { eapply Forall_impl; [|exact Hfin]. apply is_finite_not_nan. }
    assert (Hnone : ~ has_nan v).
    { intros (y & Hin & Hy). rewrite Forall_forall in Hnan.
      rewrite (Hnan y Hin) in Hy. discriminate. }
    pose proof (not_negative_not_nan _ (l2_norm_not_negative v Hnone)) as Hnn.
    destruct (py_min_minimum x xs Hnan) as [Hlo_in Hlo].
    destruct (py_max_maximum x xs Hnan) as [Hhi_in Hhi].
    fold lo in Hlo_in, Hlo. fold hi in Hhi_in, Hhi. fold v in Hlo, Hhi.
    rewrite Forall_forall in Hnan.
    repeat split; try assumption.
    + exists (l2_norm v). split; [apply calculate_norm_ok|].
      split; apply not_ltb_leb; try assumption; reflexivity.
    + apply Forall_forall. intros y Hy. apply in_range_of_bounds.
      * apply (leb_trans fm10 lo y); [|apply Hlo, Hy].
        apply not_ltb_leb; [apply Hnan, Hlo_in | reflexivity | exact Hr1].
      * apply (leb_trans y hi f10); [apply Hhi, Hy|].
        apply not_ltb_leb; [reflexivity | apply Hnan, Hhi_in | exact Hr2].
  - intros (Hlen & (n & Hn & Hn1 & Hn2) & Hrange & Hz).
    apply calculate_norm_inv in Hn. subst n.
    assert (Hnil : issues_of fmt6 v lo hi = []).
    { apply issues_of_nil. rewrite Forall_forall in Hrange.
      repeat split; try assumption.
      - apply Forall_forall. intros y Hy. apply in_range_finite, Hrange, Hy.
      - apply leb_not_ltb, Hn1.
      - apply leb_not_ltb, Hn2.
      - apply (in_range_bounds lo), Hrange, fold_min_in.
      - apply (in_range_bounds hi), Hrange, fold_max_in. }
    rewrite Hnil. reflexivity.
Qed.

(** ** The size of the issue list *)

Lemma finiteness_issues_at_length iv :
  (length (finiteness_issues_at iv) <= 1)%nat.
Proof.
  unfold finiteness_issues_at. destruct (snd iv); cbn; lia.
Qed.

Lemma flat_finiteness_length v : forall start,
  (length (flat_map finiteness_issues_at (enumerate_from start v))
   <= length v)%nat.
Proof.
  induction v as [|y v IH]; intros start; [cbn; lia|].
  change (enumerate_from start (y :: v))
    with ((start, y) :: enumerate_from (S start) v).
  cbn [flat_map length]. rewrite length_app.
  pose proof (finiteness_issues_at_length (start, y)).
  pose proof (IH (S start)). lia.
Qed.

(** X5.  The issue list is bounded: at most one finiteness issue for each
    element (an element is not both a NaN and infinite) and at most one
    issue of each of the four other checks, so never more than
    [len(embedding) + 4] issues. *)
Theorem issue_count_bound fmt6 v text ok issues :
  validate_embedding fmt6 v text = Ok (ok, issues) ->
  (length issues <= length v + 4)%nat.
Proof.
  destruct v as [|x xs]; [discriminate|].
  rewrite validate_embedding_cons. intros H. injection H as _ <-.
  unfold issues_of. rewrite !length_app.
  pose proof (flat_finiteness_length (x :: xs) 0) as Hf.
  fold (enumerate (x :: xs)) in Hf. fold (finiteness_issues (x :: xs)) in Hf.
  assert (H1 : (length (dimension_issues (x :: xs)) <= 1)%nat)
    by (unfold dimension_issues; destruct (negb _); cbn; lia).
  assert (H2 : (length (norm_issues fmt6 (l2_norm (x :: xs))) <= 1)%nat)
    by (unfold norm_issues; destruct (_ || _); cbn; lia).
  assert (H3 : forall lo hi, (length (range_issues fmt6 lo hi) <= 1)%nat)
    by (intros; unfold range_issues; destruct (_ || _); cbn; lia).
  assert (H4 : (length (zero_issues (x :: xs)) <= 1)%nat)
    by (unfold zero_issues; destruct (forallb _ _); cbn; lia).
  specialize (H3 (fold_left min_step xs x) (fold_left max_step xs x)).
  lia.
Qed.

Lemma issue_count_bound_witness :
  validate_embedding fmt_hex [S754_nan; S754_infinity true] []
  = Ok (false, [dimension_issue 2; nan_issue 0; inf_issue 1])
  /\ (length [dimension_issue 2; nan_issue 0; inf_issue 1]
      <= length [S754_nan; S754_infinity true] + 4)%nat.
Proof.
  split; [reflexivity|].
  apply (issue_count_bound fmt_hex [S754_nan; S754_infinity true] [] false).
  reflexivity.
Defined.

(** ** The range check and NaN *)

(** X6.  The range check sees the other elements only through a first
    element that is a number: the validator reports a range issue exactly
    when the first element is not a NaN and some element is strictly below
    -10.0 or strictly above 10.0.  A NaN in first position silences the
    check; a NaN elsewhere is skipped. *)
Theorem range_issue_iff fmt6 x xs text :
  exists ok issues,
    validate_embedding fmt6 (x :: xs) text = Ok (ok, issues)
    /\ ((exists lo hi, In (range_issue fmt6 lo hi) issues)
        <-> is_nan x = false
            /\ exists y, In y (x :: xs) /\ out_of_range y = true).
Proof.
  do 2 eexists. split; [apply validate_embedding_cons|].
  set (lo := fold_left min_step xs x). set (hi := fold_left max_step xs x).
  split.
  - intros (a & b & Hin). apply in_range_issues in Hin.
    assert (Hout : ltb lo fm10 = true \/ ltb f10 hi = true).
    { unfold range_issues in Hin.
      destruct (ltb lo fm10); [left; reflexivity|].
      destruct (ltb f10 hi); [right; reflexivity | destruct Hin]. }
    assert (Hx : is_nan x = false).
    { destruct (is_nan x) eqn:E; [|reflexivity].
      apply is_nan_eq in E. subst x. unfold lo, hi in Hout.
      rewrite fold_min_from_nan, fold_max_from_nan in Hout.
      destruct Hout; discriminate. }
    split; [exact Hx|]. unfold out_of_range.
    destruct Hout as [H|H].
    + exists lo. split; [apply fold_min_in | rewrite H; reflexivity].
    + exists hi. split; [apply fold_max_in | rewrite H; apply orb_true_r].
  - intros (Hx & y & Hy & Hout).
    exists lo, hi. apply in_issues_of. right; right; right; left.
    destruct (fold_min_skips_nan xs x Hx) as (_ & Hlox & Hlo).
    destruct (fold_max_skips_nan xs x Hx) as (_ & Hhix & Hhi).
    fold lo in Hlox, Hlo. fold hi in Hhix, Hhi.
    rewrite range_issues_some; [left; reflexivity|].
    unfold out_of_range in Hout. apply orb_prop in Hout.
    destruct Hout as [H|H].
    + left. apply (leb_ltb_trans lo y fm10); [|exact H].
      destruct Hy as [<-|Hy]; [exact Hlox|].
      apply Hlo; [exact Hy | apply (ltb_not_nan _ _ H)].
    + right. apply (ltb_leb_trans f10 y hi); [exact H|].
      destruct Hy as [<-|Hy]; [exact Hhix|].
      apply Hhi; [exact Hy | apply (ltb_not_nan _ _ H)].
Qed.

(** ** Further properties of the generator *)

Lemma spec_normalize_length v : length (spec_normalize v) = length v.
Proof.
  unfold spec_normalize. destruct (ltb zero (l2_norm v)); [|reflexivity].
  apply length_map.
Qed.

Lemma generateMock_spec_length text d :
  1 <= d -> length (generateMock_spec text d) = Z.to_nat d.
Proof.
  intros Hd. unfold generateMock_spec.
  rewrite spec_normalize_length. apply spec_unnormalized_length, Hd.
Qed.

(** X7.  For a dimension of at least one the generator returns a vector of
    exactly that many elements, whatever the text and its length. *)
Theorem generate_mock_embedding_length text d :
  1 <= d ->
  exists emb,
    generate_mock_embedding text d = Ok emb /\ length emb = Z.to_nat d.
Proof.
  intros Hd. exists (generateMock_spec text d).
  split; [apply generate_mock_embedding_ok, Hd|].
  apply generateMock_spec_length, Hd.
Qed.

Lemma generate_mock_embedding_length_witness :
  1 <= 3
  /\ exists emb,
      generate_mock_embedding (str_of "abcdefgh") 3 = Ok emb
      /\ length emb = Z.to_nat 3.
Proof.
  split; [lia|].
  apply (generate_mock_embedding_length (str_of "abcdefgh") 3). lia.
Defined.

(** X8.  With a dimension of zero or less, down to the least index of a
    list, the generator returns the empty vector for the empty text and
    raises for every other text: a
    [ZeroDivisionError] at [i % dimensions] when the dimension is zero, an
    [IndexError] at [embedding[idx]] when it is negative. *)
Theorem generate_mock_embedding_nonpositive text d :
  - 2 ^ 63 <= d <= 0 ->
  generate_mock_embedding text d
  = match text with
    | [] => Ok []
    | _ :: _ => Raise (if d =? 0 then ZeroDivisionError else IndexError)
    end.
Proof. intros [_ Hd]. exact (nonpositive_dimension_outcome text d Hd). Qed.

Lemma generate_mock_embedding_nonpositive_witness :
  - 2 ^ 63 <= -3 <= 0
  /\ generate_mock_embedding (str_of "a") (-3)
     = match str_of "a" with
       | [] => Ok []
       | _ :: _ => Raise (if -3 =? 0 then ZeroDivisionError else IndexError)
       end.
Proof.
  split; [lia|].
  apply (generate_mock_embedding_nonpositive (str_of "a") (-3)). lia.
Defined.

Lemma char_term_congruent c1 c2 :
  c1 mod 255 = c2 mod 255 -> char_term c1 = char_term c2.
Proof. intros H. unfold char_term. rewrite H. reflexivity. Qed.

Lemma accumulate_congruent d t1 : forall t2 start v,
  map (fun c => c mod 255) t1 = map (fun c => c mod 255) t2 ->
  fold_left
    (fun v ic =>
       add_at (Z.to_nat (Z.of_nat (fst ic) mod d)) (char_term (snd ic)) v)
    (enumerate_from start t1) v
  = fold_left
      (fun v ic =>
         add_at (Z.to_nat (Z.of_nat (fst ic) mod d)) (char_term (snd ic)) v)
      (enumerate_from start t2) v.
Proof.
  induction t1 as [|c1 t1 IH]; intros [|c2 t2] start v H;
    try discriminate; [reflexivity|].
  cbn [map] in H. injection H as Hc H.
  change (enumerate_from start (c1 :: t1))
    with ((start, c1) :: enumerate_from (S start) t1).
  change (enumerate_from start (c2 :: t2))
    with ((start, c2) :: enumerate_from (S start) t2).
  cbn [fold_left fst snd]. rewrite (char_term_congruent c1 c2 Hc).
  apply IH, H.
Qed.

Lemma hash_term_congruent h1 h2 j :
  h1 mod 100 = h2 mod 100 -> hash_term h1 j = hash_term h2 j.
Proof.
  intros H. unfold hash_term.
  rewrite (Z.add_mod j h1), (Z.add_mod j h2), H by lia. reflexivity.
Qed.

Lemma spec_unnormalized_congruent t1 t2 d :
  map (fun c => c mod 255) t1 = map (fun c => c mod 255) t2 ->
  codepoint_sum t1 mod 100 = codepoint_sum t2 mod 100 ->
  spec_unnormalized t1 d = spec_unnormalized t2 d.
Proof.
  intros Hc Hs. unfold spec_unnormalized, spec_accumulate, enumerate.
  rewrite (accumulate_congruent d t1 t2 0 _ Hc).
  unfold spec_hashed_from. apply map_ext. intros jy.
  rewrite (hash_term_congruent _ _ _ Hs). reflexivity.
Qed.

(** X9.  The generator reads a text only through its code points modulo
    255, position by position, and through the sum of its code points
    modulo 100: two texts that agree on both get the same outcome for every
    dimension, so distinct texts can share one mock embedding. *)
Theorem generate_mock_embedding_collision t1 t2 d :
  map (fun c => c mod 255) t1 = map (fun c => c mod 255) t2 ->
  fold_left Z.add t1 0 mod 100 = fold_left Z.add t2 0 mod 100 ->
  generate_mock_embedding t1 d = generate_mock_embedding t2 d.
Proof.
  intros Hc Hs. rewrite !sum_codepoints, !Z.add_0_l in Hs.
  destruct (Z_le_gt_dec d 0) as [Hd|Hd].
  - rewrite !nonpositive_dimension_outcome by assumption.
    destruct t1, t2; try discriminate; reflexivity.
  - rewrite !generate_mock_embedding_ok by lia.
    unfold generateMock_spec.
    rewrite (spec_unnormalized_congruent t1 t2 d Hc Hs). reflexivity.
Qed.

Lemma generate_mock_embedding_collision_witness :
  map (fun c => c mod 255) [65; 66] = map (fun c => c mod 255) [25565; 66]
  /\ fold_left Z.add [65; 66] 0 mod 100
     = fold_left Z.add [25565; 66] 0 mod 100
  /\ generate_mock_embedding [65; 66] 1024
     = generate_mock_embedding [25565; 66] 1024.
Proof.
  split; [reflexivity|]. split; [reflexivity|].
  apply (generate_mock_embedding_collision [65; 66] [25565; 66] 1024);
    reflexivity.
Defined.

Lemma in_dimension_issues fmt6 v lo hi n :
  In (dimension_issue n) (issues_of fmt6 v lo hi) ->
  In (dimension_issue n) (dimension_issues v).
Proof.
  intros H. apply in_issues_of in H.
  destruct H as [H|[H|[H|[H|H]]]]; [exact H| | | |].
  - apply prefix2_finiteness_issues in H. rewrite prefix2_dimension in H.
    destruct H; discriminate.
  - apply prefix2_norm_issues in H. rewrite prefix2_dimension in H.
    discriminate.
  - apply prefix2_range_issues in H. rewrite prefix2_dimension in H.
    discriminate.
  - apply prefix2_zero_issues in H. rewrite prefix2_dimension in H.
    discriminate.
Qed.

(** X10.  Generating then validating, as [verify_mock_embeddings] does,
    never raises for a dimension of at least one (the generated vector is
    not empty), and the validator reports a dimension issue exactly when the
    dimension asked of the generator is not 1024. *)
Theorem generate_then_validate fmt6 text d :
  1 <= d ->
  exists emb ok issues,
    generate_mock_embedding text d = Ok emb
    /\ validate_embedding fmt6 emb text = Ok (ok, issues)
    /\ ((exists n, In (dimension_issue n) issues) <-> d <> 1024).
Proof.
  intros Hd.
  pose proof (generate_mock_embedding_ok text d Hd) as Hgen.
  pose proof (generateMock_spec_length text d Hd) as Hlen.
  set (emb := generateMock_spec text d) in Hgen, Hlen.
  assert (Hne : emb <> []) by (intros ->; cbn in Hlen; lia).
  destruct (validate_embedding_returns fmt6 emb text Hne)
    as (lo & hi & _ & _ & Hval).
  exists emb. do 2 eexists. split; [exact Hgen|]. split; [exact Hval|].
  split.
  - intros (n & Hin). apply in_dimension_issues in Hin.
    unfold dimension_issues in Hin.
    destruct (Nat.eqb_spec (length emb) 1024) as [E|E];
      [destruct Hin | lia].
  - intros Hneq. exists (length emb). apply in_issues_of. left.
    rewrite dimension_issues_mismatch by lia. left; reflexivity.
Qed.

Lemma generate_then_validate_witness :
  1 <= 3
  /\ exists emb ok issues,
      generate_mock_embedding (str_of "ab") 3 = Ok emb
      /\ validate_embedding fmt_hex emb (str_of "ab") = Ok (ok, issues)
      /\ ((exists n, In (dimension_issue n) issues) <-> 3 <> 1024).
Proof.
  split; [lia|].
  apply (generate_then_validate fmt_hex (str_of "ab") 3). lia.
Defined.

(** The amounts the two loops add are small: checked on the 255 character
    values and the 100 hash values. *)
Lemma char_amount_table :
  forallb (fun k =>
             let t := mul (div (of_int k) f255) f0_1 in
             is_finite t && leb zero t && ltb t f0_1)
          (range 255) = true.
Proof. vm_compute. reflexivity. Qed.

Lemma hash_amount_table :
  forallb (fun k =>
             let t := div (of_int k) f1000 in
             is_finite t && leb zero t && ltb t f0_1)
          (range 100) = true.
Proof. vm_compute. reflexivity. Qed.

Lemma char_term_bounds c :
  is_finite (char_term c) = true
  /\ leb zero (char_term c) = true /\ ltb (char_term c) f0_1 = true.
Proof.
  pose proof (forallb_range _ _ char_amount_table (c mod 255)
                ltac:(apply Z.mod_pos_bound; lia)) as H.
  cbv beta zeta in H. fold (char_term c) in H.
  apply andb_prop in H. destruct H as [H H3].
  apply andb_prop in H. destruct H as [H1 H2]. auto.
Qed.

Lemma hash_term_bounds h j :
  is_finite (hash_term h j) = true
  /\ leb zero (hash_term h j) = true /\ ltb (hash_term h j) f0_1 = true.
Proof.
  pose proof (forallb_range _ _ hash_amount_table ((j + h) mod 100)
                ltac:(apply Z.mod_pos_bound; lia)) as H.
  cbv beta zeta in H. fold (hash_term h j) in H.
  apply andb_prop in H. destruct H as [H H3].
  apply andb_prop in H. destruct H as [H1 H2]. auto.
Qed.

(** X11.  One pass of either loop of the generator changes one element
    only, by adding to it a finite amount in [[0.0, 0.1)]: the character
    loop, for a character at any position [i] of the text, at the index
    [i mod dimensions], which wraps around the vector; the hash loop at its
    own index. *)
Theorem loop_steps_add_small_amounts d v i c h j :
  1 <= d -> length v = Z.to_nat d -> (j < length v)%nat ->
  (exists t,
      char_step d v (i, c)
      = Ok (add_at (Z.to_nat (Z.of_nat i mod d)) t v)
      /\ (Z.to_nat (Z.of_nat i mod d) < length v)%nat
      /\ is_finite t = true /\ leb zero t = true /\ ltb t f0_1 = true)
  /\ (exists t,
         hash_step h v (Z.of_nat j) = Ok (add_at j t v)
         /\ is_finite t = true /\ leb zero t = true /\ ltb t f0_1 = true).
Proof.
  intros Hd Hlen Hj. split.
  - exists (char_term c). split; [apply char_step_ok; assumption|].
    split; [|apply char_term_bounds].
    pose proof (Z.mod_pos_bound (Z.of_nat i) d ltac:(lia)). lia.
  - exists (hash_term h (Z.of_nat j)). split; [|apply hash_term_bounds].
    destruct (nth_error v j) as [y|] eqn:Hy;
      [|apply nth_error_None in Hy; lia].
    destruct (nth_error_split v j Hy) as (pre & suf & -> & <-).
    rewrite hash_step_ok. f_equal. unfold add_at.
    rewrite <- (list_set_add_at 0 (pre ++ y :: suf) (length pre) y)
      by apply nth_error_middle.
    rewrite list_set_app. reflexivity.
Qed.

Lemma loop_steps_add_small_amounts_witness :
  1 <= 3 /\ length [zero; f0_5; f10] = Z.to_nat 3
  /\ (2 < length [zero; f0_5; f10])%nat
  /\ (exists t,
         char_step 3 [zero; f0_5; f10] (7%nat, 97)
         = Ok (add_at (Z.to_nat (Z.of_nat 7 mod 3)) t [zero; f0_5; f10])
         /\ (Z.to_nat (Z.of_nat 7 mod 3) < length [zero; f0_5; f10])%nat
         /\ is_finite t = true /\ leb zero t = true /\ ltb t f0_1 = true)
  /\ (exists t,
         hash_step 7 [zero; f0_5; f10] (Z.of_nat 2)
         = Ok (add_at 2 t [zero; f0_5; f10])
         /\ is_finite t = true /\ leb zero t = true /\ ltb t f0_1 = true).
Proof.
  split; [lia|]. split; [reflexivity|]. split; [cbn; lia|].
  apply (loop_steps_add_small_amounts 3 [zero; f0_5; f10] 7 97 7 2);
    [lia | reflexivity | cbn; lia].
Defined.

(** ** The driver *)

Lemma mapM_length {A B : Type} (f : A -> result B) l : forall l',
  mapM f l = Ok l' -> length l' = length l.
Proof.
  induction l as [|x l IH]; intros l' H; cbn [mapM] in H.
  - injection H as <-. reflexivity.
  - destruct (f x) as [y|e]; [|discriminate]. cbn [bind] in H.
    destruct (mapM f l) as [ys|e]; [|discriminate]. cbn [bind] in H.
    injection H as <-. cbn [length]. f_equal. apply IH. reflexivity.
Qed.

Lemma to_float_raises x e : to_float x = Raise e -> e = OverflowError.
Proof.
  destruct x as [z|f]; cbn [to_float]; [|discriminate].
  unfold float_of_int. destruct (is_inf (of_int z)); [|discriminate].
  intros H. now injection H.
Qed.

Lemma mapM_to_float_raises l e :
  mapM to_float l = Raise e -> e = OverflowError.
Proof.
  induction l as [|x l IH]; cbn [mapM]; [discriminate|].
  destruct (to_float x) as [y|e'] eqn:Hx; cbn [bind].
  - destruct (mapM to_float l) as [ys|e'']; cbn [bind]; [discriminate|].
    intros H. injection H as <-. apply IH. reflexivity.
  - intros H. injection H as <-. exact (to_float_raises x e' Hx).
Qed.

Lemma print_ok l r :
  line_encodable l = true ->
  print l r
  = ({| valid_count := valid_count r;
        invalid_count := invalid_count r;
        printed := printed r ++ [l] |}, None).
Proof. intros H. unfold print. rewrite H. reflexivity. Qed.

Lemma print_issues_ok issues : forall r,
  print_issues issues r
  = ({| valid_count := valid_count r;
        invalid_count := invalid_count r;
        printed := printed r ++ map IssueLine issues |}, None).
Proof.
  induction issues as [|i issues IH]; intros r; cbn [print_issues map].
  - rewrite app_nil_r. destruct r; reflexivity.
  - rewrite print_ok by reflexivity. cbn [and_then]. rewrite IH.
    cbn [valid_count invalid_count printed].
    rewrite <- app_assoc. reflexivity.
Qed.

(** The figures shown for an accepted embedding. *)
Lemma accepted_stats fmt6 v lo hi :
  py_min v = Ok lo -> py_max v = Ok hi -> issues_of fmt6 v lo hi = [] ->
  stats_ok (StatsLine (length v) (l2_norm v) lo hi).
Proof.
  intros Hlo Hhi H. destruct v as [|x xs]; [discriminate|].
  cbn [py_min py_max] in Hlo, Hhi. injection Hlo as <-. injection Hhi as <-.
  apply issues_of_nil in H.
  destruct H as (Hlen & Hfin & [Hn1 Hn2] & [Hr1 Hr2] & _).
  assert (Hnan : Forall (fun y => is_nan y = false) (x :: xs)).
  { eapply Forall_impl; [|exact Hfin]. apply is_finite_not_nan. }
  assert (Hnone : ~ has_nan (x :: xs)).
  { intros (y & Hin & Hy). rewrite Forall_forall in Hnan.
    rewrite (Hnan y Hin) in Hy. discriminate. }
  pose proof (not_negative_not_nan _ (l2_norm_not_negative _ Hnone)) as Hnn.
  destruct (py_min_minimum x xs Hnan) as [Hlo_in Hlo].
  destruct (py_max_maximum x xs Hnan) as [Hhi_in Hhi].
  rewrite Forall_forall in Hnan.
  cbn [stats_ok]. repeat split.
  - exact Hlen.
  - apply not_ltb_leb; try assumption; reflexivity.
  - apply not_ltb_leb; try assumption; reflexivity.
  - apply not_ltb_leb; [apply Hnan, Hlo_in | reflexivity | exact Hr1].
  - apply Hlo, Hhi_in.
  - apply not_ltb_leb; [reflexivity | apply Hnan, Hhi_in | exact Hr2].
Qed.

(** One pass.  An entry that passes adds one to one of the two counters (to
    the valid one exactly when it is accepted) and prints pass lines, the
    same whatever was printed before.  An entry that does not pass ends the
    loop with its exception, and nothing printed. *)
Lemma entry_pass_spec fmt6 idx item :
  if entry_passes item then
    exists lines,
      (Forall pass_line lines /\ Forall stats_ok lines)
      /\ forall r,
          entry_pass fmt6 r (idx, item)
          = ({| valid_count :=
                  valid_count r + if entry_accepted fmt6 item then 1 else 0;
                invalid_count :=
                  invalid_count r + if entry_accepted fmt6 item then 0 else 1;
                printed := printed r ++ lines |}, None)
  else
    forall r, exists r',
      entry_pass fmt6 r (idx, item) = (r', Some (entry_error item))
      /\ printed r' = printed r.
Proof.
  unfold entry_passes, entry_error, entry_converts, entry_prints,
    entry_accepted, entry_pass.
  set (text := get_text item). set (raw := get_embedding item).
  destruct (Nat.eqb_spec (length text) 0) as [Ht|Ht]; cbn [orb negb andb].
  { eexists. split; [|intros r].
    2:{ rewrite print_ok by reflexivity. cbn [and_then]. unfold count_invalid.
        cbn [valid_count invalid_count printed].
        rewrite Nat.add_0_r. reflexivity. }
    split; repeat constructor. }
  destruct (Nat.eqb_spec (length raw) 0) as [Hr|Hr]; cbn [orb].
  { destruct raw; [|discriminate]. cbn [mapM andb].
    rewrite validate_embedding_nil.
    eexists. split; [|intros r].
    2:{ rewrite print_ok by reflexivity. cbn [and_then]. unfold count_invalid.
        cbn [valid_count invalid_count printed].
        rewrite Nat.add_0_r. reflexivity. }
    split; repeat constructor. }
  destruct (mapM to_float raw) as [embedding|e] eqn:Hconv; cbn [andb].
  2:{ intros r. exists r.
      rewrite (mapM_to_float_raises raw e Hconv). split; reflexivity. }
  pose proof (mapM_length _ _ _ Hconv) as Hlen.
  destruct (Nat.eqb_spec (length embedding) 0) as [He|He]; [lia|].
  assert (Hne : embedding <> []) by (intros ->; apply He; reflexivity).
  destruct (validate_embedding_returns fmt6 embedding text Hne)
    as (lo & hi & Hlo & Hhi & Hval).
  rewrite Hval, calculate_norm_ok, Hlo, Hhi.
  destruct (encodable (firstn 50 text)) eqn:Henc.
  - destruct (Nat.eqb_spec (length (issues_of fmt6 embedding lo hi)) 0)
      as [Hnil|Hnil].
    + eexists. split; [|intros r].
      2:{ rewrite print_ok by exact Henc. cbn [and_then].
          rewrite print_ok by reflexivity. unfold count_valid.
          cbn [valid_count invalid_count printed].
          rewrite Nat.add_0_r, <- app_assoc. reflexivity. }
      apply length_zero_iff_nil in Hnil.
      split; [repeat constructor|].
      constructor; [exact I|]. constructor; [|constructor].
      exact (accepted_stats fmt6 embedding lo hi Hlo Hhi Hnil).
    + eexists. split; [|intros r].
      2:{ rewrite print_ok by exact Henc. cbn [and_then].
          rewrite print_issues_ok. unfold count_invalid.
          cbn [valid_count invalid_count printed].
          rewrite Nat.add_0_r, <- app_assoc. reflexivity. }
      split; (constructor; [exact I|]); apply Forall_forall; intros l Hl;
        apply in_map_iff in Hl; destruct Hl as (i & <- & _); exact I.
  - intros r.
    destruct (length (issues_of fmt6 embedding lo hi) =? 0)%nat;
      eexists; unfold print; cbn [line_encodable]; rewrite Henc;
      cbn [and_then]; split; reflexivity.
Qed.

Lemma enumerate_from_cons {A : Type} start (x : A) xs :
  enumerate_from start (x :: xs) = (start, x) :: enumerate_from (S start) xs.
Proof. reflexivity. Qed.

Lemma enumerate_from_app {A : Type} (xs ys : list A) : forall start,
  enumerate_from start (xs ++ ys)
  = enumerate_from start xs ++ enumerate_from (start + length xs) ys.
Proof.
  induction xs as [|x xs IH]; intros start.
  - cbn [app length]. rewrite Nat.add_0_r. reflexivity.
  - rewrite <- app_comm_cons, !enumerate_from_cons, IH, <- app_comm_cons.
    cbn [length]. do 3 f_equal. lia.
Qed.

Lemma entry_loop_app fmt6 xs ys : forall r,
  entry_loop fmt6 r (xs ++ ys)
  = and_then (entry_loop fmt6 r xs) (fun r' => entry_loop fmt6 r' ys).
Proof.
  induction xs as [|x xs IH]; intros r.
  - reflexivity.
  - rewrite <- app_comm_cons. cbn [entry_loop].
    destruct (entry_pass fmt6 r x) as [r' [e|]]; [reflexivity | apply IH].
Qed.

(** The loop over entries that all pass: every entry is counted once, as
    valid exactly when it is accepted, and only pass lines are printed, the
    same whatever was printed before. *)
Lemma entry_loop_passes fmt6 data : forall start,
  forallb entry_passes data = true ->
  exists lines,
    (Forall pass_line lines /\ Forall stats_ok lines)
    /\ forall r,
        entry_loop fmt6 r (enumerate_from start data)
        = ({| valid_count :=
                valid_count r + length (filter (entry_accepted fmt6) data);
              invalid_count :=
                invalid_count r
                + (length data
                   - length (filter (entry_accepted fmt6) data));
              printed := printed r ++ lines |}, None).
Proof.
  induction data as [|item data IH]; intros start Hall.
  - exists []. split; [split; constructor|]. intros r. cbn.
    rewrite !Nat.add_0_r, app_nil_r. destruct r; reflexivity.
  - cbn [forallb] in Hall. apply andb_prop in Hall. destruct Hall as [Hc Hall].
    pose proof (entry_pass_spec fmt6 start item) as Hp. rewrite Hc in Hp.
    destruct Hp as (l1 & [Hl1 Hs1] & Hp).
    destruct (IH (S start) Hall) as (l2 & [Hl2 Hs2] & Hloop).
    exists (l1 ++ l2). split; [split; apply Forall_app; auto|]. intros r.
    rewrite enumerate_from_cons. cbn [entry_loop]. rewrite Hp.
    cbn [and_then]. rewrite Hloop.
    cbn [valid_count invalid_count printed filter length].
    pose proof (filter_length_le (entry_accepted fmt6) data) as Hle.
    rewrite app_assoc.
    destruct (entry_accepted fmt6 item); cbn [length]; do 2 f_equal; lia.
Qed.

(** The loop up to an entry that does not pass: it ends there with the
    exception of that entry, and has printed what it prints for the
    entries before. *)
Lemma entry_loop_aborts fmt6 before bad after start :
  forallb entry_passes before = true -> entry_passes bad = false ->
  forall r, exists r',
    entry_loop fmt6 r (enumerate_from start (before ++ bad :: after))
    = (r', Some (entry_error bad))
    /\ printed r'
       = printed (fst (entry_loop fmt6 r (enumerate_from start before))).
Proof.
  intros Hall Hbad r.
  rewrite enumerate_from_app, entry_loop_app, enumerate_from_cons.
  destruct (entry_loop_passes fmt6 before start Hall) as (lines & _ & ->).
  cbn [and_then entry_loop fst].
  pose proof (entry_pass_spec fmt6 (start + length before) bad) as Hp.
  rewrite Hbad in Hp.
  match goal with
  | |- context [entry_pass fmt6 ?r0 _] => destruct (Hp r0) as (r' & -> & Hpr)
  end.
  exists r'. split; [reflexivity | exact Hpr].
Qed.

(** X12.  When every entry passes (no integer is too large for a float, and
    no text that is printed holds a surrogate), the driver prints, after the
    two opening lines, pass lines only and then the summary; the two counts
    of the summary add up to the number of entries, and the valid count is
    the number of entries that have a text, an embedding and the verdict
    [True] of the validator. *)
Theorem driver_summary fmt6 data :
  forallb entry_passes data = true ->
  exists body valid invalid,
    verify_entries fmt6 data
    = LoadedLine :: FoundLine (length data) :: body
        ++ [SummaryLine valid invalid]
    /\ Forall pass_line body
    /\ valid = length (filter (entry_accepted fmt6) data)
    /\ (valid + invalid = length data)%nat.
Proof.
  intros Hall. unfold verify_entries, enumerate.
  rewrite print_ok by reflexivity. cbn [and_then].
  rewrite print_ok by reflexivity. cbn [and_then].
  destruct (entry_loop_passes fmt6 data 0 Hall) as (lines & [Hl _] & ->).
  cbn [and_then]. rewrite print_ok by reflexivity.
  pose proof (filter_length_le (entry_accepted fmt6) data) as Hle.
  exists lines, (length (filter (entry_accepted fmt6) data)),
    (length data - length (filter (entry_accepted fmt6) data))%nat.
  cbn [printed valid_count invalid_count app Nat.add].
  rewrite <- app_assoc.
  repeat split; [exact Hl | lia].
Qed.

Lemma driver_summary_witness :
  forallb entry_passes [unit_entry; short_entry] = true
  /\ exists body valid invalid,
      verify_entries fmt_hex [unit_entry; short_entry]
      = LoadedLine :: FoundLine 2 :: body ++ [SummaryLine valid invalid]
      /\ Forall pass_line body
      /\ valid
         = length (filter (entry_accepted fmt_hex) [unit_entry; short_entry])
      /\ (valid + invalid = 2)%nat.
Proof.
  split; [vm_compute; reflexivity|].
  apply (driver_summary fmt_hex [unit_entry; short_entry]).
  vm_compute. reflexivity.
Defined.



Lemma first_not_passing data :
  forallb entry_passes data = true
  \/ exists before bad after,
      data = before ++ bad :: after
      /\ forallb entry_passes before = true
      /\ entry_passes bad = false.
Proof.
  induction data as [|item data IH]; [left; reflexivity|].
  cbn [forallb]. destruct (entry_passes item) eqn:Hitem.
  - destruct IH as [IH|(before & bad & after & -> & Hb & Hbad)].
    + left. exact IH.
    + right. exists (item :: before), bad, after.
      cbn [forallb]. rewrite Hitem, Hb. auto.
  - right. exists [], item, data. auto.
Qed.

(** All that the driver prints: the two opening lines, pass lines whose
    statistics lie within the validator's bounds, and one closing line. *)
Lemma verify_entries_shape fmt6 data :
  exists body last,
    verify_entries fmt6 data
    = LoadedLine :: FoundLine (length data) :: body ++ [last]
    /\ Forall pass_line body /\ Forall stats_ok body
    /\ (last = ErrorLine (Raised OverflowError)
        \/ last = ErrorLine UnicodeEncodeError
        \/ exists valid invalid, last = SummaryLine valid invalid).
Proof.
  unfold verify_entries, enumerate.
  rewrite !(print_ok LoadedLine) by reflexivity. cbn [and_then].
  rewrite !(print_ok (FoundLine _)) by reflexivity. cbn [and_then].
  destruct (first_not_passing data)
    as [Hall|(before & bad & after & -> & Hall & Hbad)].
  - destruct (entry_loop_passes fmt6 data 0 Hall)
      as (lines & [Hl Hs] & ->).
    cbn [and_then]. rewrite print_ok by reflexivity.
    cbn [printed app]. rewrite <- app_assoc.
    exists lines. eexists. split; [reflexivity|].
    repeat split; [exact Hl | exact Hs |]. right. right. eauto.
  - match goal with
    | |- context [entry_loop fmt6 ?r0 (enumerate_from 0 (before ++ _))] =>
        destruct (entry_loop_aborts fmt6 before bad after 0 Hall Hbad r0)
          as (r' & -> & Hpr)
    end.
    destruct (entry_loop_passes fmt6 before 0 Hall)
      as (lines & [Hl Hs] & Hloop).
    rewrite Hloop in Hpr. cbn [and_then fst printed] in Hpr |- *.
    rewrite print_ok by reflexivity. cbn [fst printed].
    rewrite Hpr. cbn [app]. rewrite <- app_assoc.
    exists lines. eexists. split; [reflexivity|].
    repeat split; [exact Hl | exact Hs |].
    unfold entry_error. destruct (entry_converts bad); auto.
Qed.

(** X14.  The driver never prints the line for an empty embedding, and the
    only errors it can print are the [OverflowError] of a conversion to
    float and the [UnicodeEncodeError] of a [print]: the validator's
    [ValueError] on the empty vector never reaches it. *)
Theorem driver_never_prints fmt6 data l :
  In l (verify_entries fmt6 data) ->
  match l with
  | EmptyLine _ _ => False
  | ErrorLine e => e = Raised OverflowError \/ e = UnicodeEncodeError
  | _ => True
  end.
Proof.
  destruct (verify_entries_shape fmt6 data)
    as (body & last & -> & Hl & _ & Hlast).
  intros [<-|[<-|Hin]]; [exact I | exact I |].
  apply in_app_or in Hin. destruct Hin as [Hin|[<-|[]]].
  - rewrite Forall_forall in Hl. specialize (Hl l Hin).
    destruct l; try exact I; destruct Hl.
  - destruct Hlast as [->|[->|(v & i & ->)]]; auto.
Qed.

Lemma driver_never_prints_witness :
  In (ErrorLine UnicodeEncodeError)
     (verify_entries fmt_hex [short_entry; surrogate_entry; huge_entry])
  /\ (UnicodeEncodeError = Raised OverflowError
      \/ UnicodeEncodeError = UnicodeEncodeError).
Proof.
  split; [vm_compute; tauto|].
  apply (driver_never_prints fmt_hex
           [short_entry; surrogate_entry; huge_entry]
           (ErrorLine UnicodeEncodeError)).
  vm_compute. tauto.
Defined.

(** X15.  Every statistics line the driver prints shows 1024 dimensions, a
    norm within [[0.9, 1.1]] and a minimum and a maximum, in this order,
    within [[-10.0, 10.0]]. *)
Theorem driver_stats_within_bounds fmt6 data dimensions norm min_val max_val :
  In (StatsLine dimensions norm min_val max_val) (verify_entries fmt6 data) ->
  dimensions = 1024%nat
  /\ leb f0_9 norm = true /\ leb norm f1_1 = true
  /\ leb fm10 min_val = true /\ leb min_val max_val = true
  /\ leb max_val f10 = true.
Proof.
  destruct (verify_entries_shape fmt6 data)
    as (body & last & -> & _ & Hs & Hlast).
  intros [H|[H|Hin]]; [discriminate | discriminate |].
  apply in_app_or in Hin. destruct Hin as [Hin|[H|[]]].
  - rewrite Forall_forall in Hs. exact (Hs _ Hin).
  - destruct Hlast as [->|[->|(v & i & ->)]]; discriminate.
Qed.

Lemma driver_stats_within_bounds_witness :
  In (StatsLine 1024 (of_int 1) zero (of_int 1))
     (verify_entries fmt_hex [unit_entry])
  /\ 1024%nat = 1024%nat
  /\ leb f0_9 (of_int 1) = true /\ leb (of_int 1) f1_1 = true
  /\ leb fm10 zero = true /\ leb zero (of_int 1) = true
  /\ leb (of_int 1) f10 = true.
Proof.
  split; [vm_compute; tauto|].
  apply (driver_stats_within_bounds fmt_hex [unit_entry]).
  vm_compute. tauto.
Defined.
